(** * Mode / activity orchestration core (Modes.hpp): a shallow embedding

    The header [src/Modes.hpp] declares the C structs [LabViewInteraction]
    and [LabActivity], the undo [Journal] with its [JournalNode]s, the
    [Activity] / [Mode] / [MajorMode] classes and the [ModeManager].
    Inline bodies of the header are transcribed as they are written.
    Members that the header only declares are given the behaviour the
    spec describes; each such definition says so. *)

From stdpp Require Import base option list gmap strings.
From Stdlib Require Import ZArith Lia.

Set Implicit Arguments.
Unset Strict Implicit.

(** ** Transactions and the journal *)

Section JournalModel.

(** The document the closures of a [Transaction] act on. *)
Context {World : Type}.

(** [struct Transaction] (compiled with HAVE_NO_USD): a message and two
    [std::function<void()>] closures, taken to be callable. *)
Record Transaction := mkTransaction {
  message : string;
  exec : World -> World;
  undo : World -> World
}.

(** [Transaction(std::string m, std::function<void()> e)]: undo is [[](){}]. *)
Definition Transaction_of (m : string) (e : World -> World) : Transaction :=
  mkTransaction m e (fun w => w).

(** [Transaction() = default]; only the root sentinel carries it and neither
    [Append] nor [Fork] ever runs it. *)
Definition Transaction_default : Transaction :=
  mkTransaction "" (fun w => w) (fun w => w).

(** Nodes live in a store indexed by address; a null pointer is [None]. *)
Definition addr := nat.

Record JournalNode := mkNode {
  transaction : Transaction;
  next : option addr;
  sibling : option addr;
  parent : option addr
}.

(** The node store, the static [JournalNode::count], and [Journal::_curr].
    [Journal::root] is a member of the journal, kept at address [root]. *)
Record Journal := mkJournal {
  nodes : gmap addr JournalNode;
  count : Z;
  _curr : addr
}.

Definition root : addr := 0.

Definition with_nodes (f : gmap addr JournalNode -> gmap addr JournalNode)
    (j : Journal) : Journal :=
  mkJournal (f (nodes j)) (count j) (_curr j).

Definition set_next (p : addr) (v : option addr) : Journal -> Journal :=
  with_nodes (alter (fun n => mkNode (transaction n) v (sibling n) (parent n)) p).

Definition set_sibling (p : addr) (v : option addr) : Journal -> Journal :=
  with_nodes (alter (fun n => mkNode (transaction n) (next n) v (parent n)) p).

(** [JournalNode() : next(nullptr), sibling(nullptr) { ++count; }].
    The constructor leaves [parent] unset; it is read here as null.
    Storage comes from the allocator: any address not in use. *)
Definition JournalNode_new (j : Journal) : addr * Journal :=
  let a := fresh (dom (nodes j)) in
  (a, mkJournal (<[a := mkNode Transaction_default None None None]> (nodes j))
                (count j + 1) (_curr j)).

(** [delete p]: the destructor [~JournalNode() { Truncate(this); --count; }]
    runs and the storage of [p] is released. The call [Truncate(this)] is
    written out in place, as [Truncate] below in turn deletes the next node.
    [None] is returned when [fuel] does not cover the [next] chain or when
    a dangling pointer is followed: the C++ has no defined result there. *)
Fixpoint delete_node (fuel : nat) (p : addr) (j : Journal) : option Journal :=
  match fuel with
  | O => None
  | S f =>
      n ← nodes j !! p;
      j1 ← match next n with
           | Some q => set_next p None <$> delete_node f q j
           | None => Some j
           end;
      Some (mkJournal (delete p (nodes j1)) (count j1 - 1) (_curr j1))
  end.

(** Modelled from the spec: the body of [JournalNode::Truncate] is missing;
    it recursively deletes the nodes after [node] along [next], never the
    parent or a sibling, and makes [node] the end of the journal. *)
Definition Truncate (fuel : nat) (p : addr) (j : Journal) : option Journal :=
  n ← nodes j !! p;
  match next n with
  | Some q => set_next p None <$> delete_node fuel q j
  | None => Some j
  end.

(** Modelled from the spec: the body of [Journal::Journal] is missing; a
    journal starts with its root sentinel, which is also [_curr]. The root
    is a member, so its constructor runs and counts it. [JournalNode::count]
    is one static that all journals share: [c] is its value when the journal
    is constructed, the number of nodes of other journals alive then. *)
Definition Journal_new (c : Z) : Journal :=
  mkJournal {[ root := mkNode Transaction_default None None None ]}
            (c + 1) root.

(** Modelled from the spec: the body of [Journal::Append] is missing. It
    runs [t.exec], truncates what follows [_curr], creates the new node as
    [_curr->next], and moves [_curr] to it. A store has room for at most
    [size (nodes j)] nodes after [_curr], which bounds the truncation. *)
Definition Append (t : Transaction) (wj : World * Journal)
    : option (World * Journal) :=
  let w1 := exec t wj.1 in
  let c := _curr wj.2 in
  j1 ← Truncate (size (nodes wj.2)) c wj.2;
  let '(a, j2) := JournalNode_new j1 in
  let j3 := with_nodes (<[a := mkNode t None None (Some c)]>) j2 in
  let j4 := set_next c (Some a) j3 in
  Some (w1, mkJournal (nodes j4) (count j4) a).

(** Modelled from the spec: the walk of [Journal::Fork] to the last node
    of the sibling chain that starts at [p]. *)
Fixpoint last_sibling (fuel : nat) (p : addr) (j : Journal) : option addr :=
  match fuel with
  | O => None
  | S f =>
      n ← nodes j !! p;
      match sibling n with
      | Some q => last_sibling f q j
      | None => Some p
      end
  end.

(** Modelled from the spec: the body of [Journal::Fork] is missing. It runs
    [t.exec], creates a node, hangs it at the end of the sibling chain of
    [_curr], and moves [_curr] to it. A sibling is an alternate continuation
    from the same parent, so the new node takes the parent of [_curr]. *)
Definition Fork (t : Transaction) (wj : World * Journal)
    : option (World * Journal) :=
  let w1 := exec t wj.1 in
  let c := _curr wj.2 in
  cn ← nodes wj.2 !! c;
  e ← last_sibling (size (nodes wj.2)) c wj.2;
  let '(a, j1) := JournalNode_new wj.2 in
  let j2 := with_nodes (<[a := mkNode t None None (parent cn)]>) j1 in
  let j3 := set_sibling e (Some a) j2 in
  Some (w1, mkJournal (nodes j3) (count j3) a).



(** Modelled from the spec: the header has no member that moves [_curr];
    the spec asks for the navigation (to a parent for undo, to a next or
    sibling for redo) to be exposed. *)
Definition goto (p : addr) (j : Journal) : Journal :=
  mkJournal (nodes j) (count j) p.

(** Modelled from the spec: a run of [Append]s, first transaction first,
    as the drain of the transaction queue makes it. *)
Fixpoint Appends (ts : list Transaction) (wj : World * Journal)
    : option (World * Journal) :=
  match ts with
  | [] => Some wj
  | t :: ts' => wj1 ← Append t wj; Appends ts' wj1
  end.

(** *** Shapes in the store *)

(** [chain link j o l]: following [link] from [o] visits exactly the
    addresses [l] and then reaches null. *)
Inductive chain (link : JournalNode -> option addr) (j : Journal)
    : option addr -> list addr -> Prop :=
| chain_nil : chain link j None []
| chain_cons p n l :
    nodes j !! p = Some n -> chain link j (link n) l ->
    chain link j (Some p) (p :: l).


(** Reachability along [next] and [sibling] links. *)
Inductive reachable (j : Journal) : addr -> addr -> Prop :=
| reach_here p : is_Some (nodes j !! p) -> reachable j p p
| reach_next p n q r :
    nodes j !! p = Some n -> next n = Some q -> reachable j q r ->
    reachable j p r
| reach_sibling p n q r :
    nodes j !! p = Some n -> sibling n = Some q -> reachable j q r ->
    reachable j p r.




(** Every link of the old store is still a link of the new one. *)
Definition keeps_links (j j' : Journal) : Prop :=
  forall b n, nodes j !! b = Some n ->
    exists n', nodes j' !! b = Some n' /\ next n' = next n /\
               (forall q, sibling n = Some q -> sibling n' = Some q).

End JournalModel.

Arguments Transaction : clear implicits.
Arguments JournalNode : clear implicits.
Arguments Journal : clear implicits.

(** ** The C structs of the plugin boundary *)

(** A C [float], kept as its IEEE-754 binary32 bit pattern: the coordinator
    passes view geometry through and never computes with it. *)
Definition float := Z.

Module View.

Record LabViewDimensions := mkDimensions {
  w : float; h : float;
  wx : float; wy : float; ww : float; wh : float
}.

(** [end_] is the member [end]. *)
Record LabViewInteraction := mkInteraction {
  view : LabViewDimensions;
  x : float; y : float; dt : float;
  start : bool; end_ : bool
}.

End View.

Section Capabilities.

(** What the [void*] first argument of every slot points to. *)
Context {Self : Type}.

(** [struct LabActivity]: eleven optional function slots (a null pointer is
    [None]), the display name and the active flag. *)
Record LabActivity := mkLabActivity {
  Activate : option (Self -> Self);
  Deactivate : option (Self -> Self);
  Update : option (Self -> Self);
  Render : option (Self -> View.LabViewInteraction -> Self);
  RunUI : option (Self -> View.LabViewInteraction -> Self);
  Menu : option (Self -> Self);
  ToolBar : option (Self -> Self);
  ViewportHoverBid : option (Self -> View.LabViewInteraction -> Z);
  ViewportHovering : option (Self -> View.LabViewInteraction -> Self);
  ViewportDragBid : option (Self -> View.LabViewInteraction -> Z);
  ViewportDragging : option (Self -> View.LabViewInteraction -> Self);
  name : string;
  active : bool
}.

(** The in-class initialisers: every slot null, [active = false]. *)
Definition LabActivity_init (n : string) : LabActivity :=
  mkLabActivity None None None None None None None None None None None n false.

Definition with_active (b : bool) (l : LabActivity) : LabActivity :=
  mkLabActivity (Activate l) (Deactivate l) (Update l) (Render l) (RunUI l)
    (Menu l) (ToolBar l) (ViewportHoverBid l) (ViewportHovering l)
    (ViewportDragBid l) (ViewportDragging l) (name l) b.

Definition with_ViewportDragBid
    (f : option (Self -> View.LabViewInteraction -> Z)) (l : LabActivity)
    : LabActivity :=
  mkLabActivity (Activate l) (Deactivate l) (Update l) (Render l) (RunUI l)
    (Menu l) (ToolBar l) (ViewportHoverBid l) (ViewportHovering l)
    f (ViewportDragging l) (name l) (active l).

End Capabilities.

Arguments LabActivity : clear implicits.

(** ** [class Activity] *)

Module Activity.
Section Class.
Context {Self : Type}.

(** The data of an instance: the public member [activity] and whatever
    fields the subclass adds. *)
Record state := mkState {
  activity : LabActivity Self;
  fields : Self
}.

(** An instance: its virtual functions and its data. The hooks are member
    functions, so they see, and may write, all of [state]. They are taken
    to act on the instance they belong to and on nothing else: a hook that
    calls back into the [ModeManager], for instance to activate an activity
    it depends on, is not covered, and every statement below about other
    activities or about the set of active activities is a statement about
    hooks that act on their own object only. *)
Record t := mk {
  Name : string;
  _activate : state -> state;
  _deactivate : state -> state;
  this : state
}.

(** [virtual void _activate() {}] and [virtual void _deactivate() {}]. *)
Definition default_hook : state -> state := fun s => s.

Definition set_active (b : bool) (s : state) : state :=
  mkState (with_active b (activity s)) (fields s).

Definition with_this (s : state) (a : t) : t :=
  mk (Name a) (_activate a) (_deactivate a) s.

(** [virtual void Activate() final { activity.active = true; _activate(); }] *)
Definition Activate (a : t) : t :=
  with_this (_activate a (set_active true (this a))) a.

(** [virtual void Deactivate() final { activity.active = false; _deactivate(); }] *)
Definition Deactivate (a : t) : t :=
  with_this (_deactivate a (set_active false (this a))) a.

(** [bool IsActive() const { return activity.active; }] *)
Definition IsActive (a : t) : bool := active (activity (this a)).

(** A subclass whose hooks leave the flag as the entry point set it. *)
Definition keeps_flag (a : t) : Prop :=
  (forall s, active (activity (_activate a s)) = active (activity s)) /\
  (forall s, active (activity (_deactivate a s)) = active (activity s)).

End Class.
Arguments state : clear implicits.
Arguments t : clear implicits.
End Activity.

(** ** [class Mode] and [class MajorMode] *)

Module Mode.
Section Class.
Context {Self : Type}.

Record state := mkState {
  _active : bool;
  fields : Self
}.

Record t := mk {
  Name : string;
  _activate : state -> state;
  _deactivate : state -> state;
  this : state
}.

Definition default_hook : state -> state := fun s => s.

Definition set_active (b : bool) (s : state) : state :=
  mkState b (fields s).

Definition with_this (s : state) (m : t) : t :=
  mk (Name m) (_activate m) (_deactivate m) s.

(** [virtual void Activate() final { _active = true; _activate(); }] *)
Definition Activate (m : t) : t :=
  with_this (_activate m (set_active true (this m))) m.

(** [virtual void Deactivate() final { _active = false; _deactivate(); }] *)
Definition Deactivate (m : t) : t :=
  with_this (_deactivate m (set_active false (this m))) m.

(** [bool IsActive() const { return _active; }] *)
Definition IsActive (m : t) : bool := _active (this m).

End Class.
Arguments state : clear implicits.
Arguments t : clear implicits.
End Mode.

Module MajorMode.
Section Class.
Context {Self : Type}.

(** [class MajorMode : public Mode] with its two virtual queries. *)
Record t := mk {
  base : Mode.t Self;
  ModeConfiguration : list string;
  MustDeactivateUnrelatedModesOnActivation : bool
}.

(** [virtual bool MustDeactivateUnrelatedModesOnActivation() const { return true; }] *)
Definition make (b : Mode.t Self) (cfg : list string) : t := mk b cfg true.

Definition with_base (b : Mode.t Self) (m : t) : t :=
  mk b (ModeConfiguration m) (MustDeactivateUnrelatedModesOnActivation m).

End Class.
Arguments t : clear implicits.
End MajorMode.

(** ** [class ModeManager] *)

(** The viewport callbacks the manager makes, in the order it makes them. *)
Inductive Call :=
| CallViewportHovering (n : string)
| CallViewportDragging (n : string).

Section Manager.
Context {Self World : Type}.

(** Modelled from the spec: [struct data], behind [_self], is missing; it
    holds the two registries with their name lists in registration order,
    the live activity instances, the cache of active activities, the
    current major mode, the owner of the drag gesture in progress and the
    transaction queue. The members [_journal] and [_major_mode_pending] are
    in the header. [world] is the document the transactions edit and
    [calls] records the viewport callbacks made so far. *)
Record ModeManager := mkModeManager {
  activity_factory : gmap string (unit -> Activity.t Self);
  activity_names : list string;
  major_mode_factory : gmap string (unit -> MajorMode.t Self);
  major_mode_names : list string;
  activities : gmap string (Activity.t Self);
  active_cache : gset string;
  major_mode : option (string * MajorMode.t Self);
  dragging : option string;
  queue : list (Transaction World);
  _journal : Journal World;
  _major_mode_pending : string;
  world : World;
  calls : list Call
}.

Definition with_activities (f : gmap string (Activity.t Self) ->
                                gmap string (Activity.t Self))
    (m : ModeManager) : ModeManager :=
  mkModeManager (activity_factory m) (activity_names m) (major_mode_factory m)
    (major_mode_names m) (f (activities m)) (active_cache m) (major_mode m)
    (dragging m) (queue m) (_journal m) (_major_mode_pending m) (world m)
    (calls m).

Definition with_active_cache (s : gset string) (m : ModeManager) : ModeManager :=
  mkModeManager (activity_factory m) (activity_names m) (major_mode_factory m)
    (major_mode_names m) (activities m) s (major_mode m)
    (dragging m) (queue m) (_journal m) (_major_mode_pending m) (world m)
    (calls m).

Definition with_major_mode (c : option (string * MajorMode.t Self))
    (m : ModeManager) : ModeManager :=
  mkModeManager (activity_factory m) (activity_names m) (major_mode_factory m)
    (major_mode_names m) (activities m) (active_cache m) c
    (dragging m) (queue m) (_journal m) (_major_mode_pending m) (world m)
    (calls m).

Definition with_dragging (d : option string) (m : ModeManager) : ModeManager :=
  mkModeManager (activity_factory m) (activity_names m) (major_mode_factory m)
    (major_mode_names m) (activities m) (active_cache m) (major_mode m)
    d (queue m) (_journal m) (_major_mode_pending m) (world m)
    (calls m).

Definition with_pending (p : string) (m : ModeManager) : ModeManager :=
  mkModeManager (activity_factory m) (activity_names m) (major_mode_factory m)
    (major_mode_names m) (activities m) (active_cache m) (major_mode m)
    (dragging m) (queue m) (_journal m) p (world m)
    (calls m).

Definition with_drained (wj : World * Journal World) (m : ModeManager)
    : ModeManager :=
  mkModeManager (activity_factory m) (activity_names m) (major_mode_factory m)
    (major_mode_names m) (activities m) (active_cache m) (major_mode m)
    (dragging m) [] wj.2 (_major_mode_pending m) wj.1
    (calls m).

Definition with_queue (q : list (Transaction World)) (m : ModeManager)
    : ModeManager :=
  mkModeManager (activity_factory m) (activity_names m) (major_mode_factory m)
    (major_mode_names m) (activities m) (active_cache m) (major_mode m)
    (dragging m) q (_journal m) (_major_mode_pending m) (world m)
    (calls m).

Definition record_call (c : Call) (m : ModeManager) : ModeManager :=
  mkModeManager (activity_factory m) (activity_names m) (major_mode_factory m)
    (major_mode_names m) (activities m) (active_cache m) (major_mode m)
    (dragging m) (queue m) (_journal m) (_major_mode_pending m) (world m)
    (calls m ++ [c]).

(** Modelled from the spec: [ModeManager::ModeManager] is missing; nothing
    is registered, live, current, owned, queued or pending, and the member
    [_journal] is constructed, with [c] journal nodes alive elsewhere. *)
Definition ModeManager_new (c : Z) (w : World) : ModeManager :=
  mkModeManager ∅ [] ∅ [] ∅ ∅ None None [] (Journal_new c) "" w [].

(** Modelled from the spec: [_register_activity] and [_register_major_mode]
    are missing; a name is tied to a factory, a second registration of the
    name replaces the factory and leaves its place in the order. *)
Definition _register_activity (n : string) (fn : unit -> Activity.t Self)
    (m : ModeManager) : ModeManager :=
  mkModeManager (<[n := fn]> (activity_factory m))
    (if bool_decide (n ∈ activity_names m) then activity_names m
     else activity_names m ++ [n])
    (major_mode_factory m)
    (major_mode_names m) (activities m) (active_cache m) (major_mode m)
    (dragging m) (queue m) (_journal m) (_major_mode_pending m) (world m)
    (calls m).

Definition _register_major_mode (n : string) (fn : unit -> MajorMode.t Self)
    (m : ModeManager) : ModeManager :=
  mkModeManager (activity_factory m) (activity_names m)
    (<[n := fn]> (major_mode_factory m))
    (if bool_decide (n ∈ major_mode_names m) then major_mode_names m
     else major_mode_names m ++ [n])
    (activities m) (active_cache m) (major_mode m)
    (dragging m) (queue m) (_journal m) (_major_mode_pending m) (world m)
    (calls m).

(** Modelled from the spec: [FindMode] is missing; a lookup by name in the
    major-mode registry, empty when the name is absent. *)
Definition FindMode (n : string) (m : ModeManager) : option (MajorMode.t Self) :=
  fn ← major_mode_factory m !! n; Some (fn ()).

(** Modelled from the spec: [FindActivity] is missing; it locates the live
    instance, or builds it with the registered factory on first use and
    keeps it; empty when the name is absent. *)
Definition FindActivity (n : string) (m : ModeManager)
    : option (Activity.t Self) * ModeManager :=
  match activities m !! n with
  | Some a => (Some a, m)
  | None =>
      match activity_factory m !! n with
      | Some fn => (Some (fn ()), with_activities (<[n := fn ()]>) m)
      | None => (None, m)
      end
  end.

(** Modelled from the spec: the active set, the names of the live
    activities whose flag is set. *)
Definition ActiveSet (m : ModeManager) : gset string :=
  dom (filter (fun kv => Activity.IsActive kv.2 = true) (activities m)).

(** Modelled from the spec: [_set_activities] is missing; it recomputes the
    cache of active activities. *)
Definition _set_activities (m : ModeManager) : ModeManager :=
  with_active_cache (ActiveSet m) m.

(** [ActivateMajorMode]: [auto m = FindMode(name); if (m) _major_mode_pending = name;] *)
Definition ActivateMajorMode (n : string) (m : ModeManager) : ModeManager :=
  match FindMode n m with
  | Some _ => with_pending n m
  | None => m
  end.

(** [ActivateActivity]: [auto m = FindActivity(name);
    if (m) { m->Activate(); _set_activities(); }]. The pointer returned
    aliases the instance kept under [name]. *)
Definition ActivateActivity (n : string) (m : ModeManager) : ModeManager :=
  match FindActivity n m with
  | (Some a, m1) =>
      _set_activities (with_activities (<[n := Activity.Activate a]>) m1)
  | (None, m1) => m1
  end.

(** [DeactivateActivity]: the same with [m->Deactivate()]. *)
Definition DeactivateActivity (n : string) (m : ModeManager) : ModeManager :=
  match FindActivity n m with
  | (Some a, m1) =>
      _set_activities (with_activities (<[n := Activity.Deactivate a]>) m1)
  | (None, m1) => m1
  end.

(** Modelled from the spec: [CurrentMajorMode] is missing. *)
Definition CurrentMajorMode (m : ModeManager) : option (MajorMode.t Self) :=
  snd <$> major_mode m.

(** *** Applying a major-mode switch *)

(** Modelled from the spec: the step of [_activate_major_mode] that
    deactivates every active activity the configuration does not name. *)
Definition deactivate_unrelated (cfg : list string) (m : ModeManager)
    : ModeManager :=
  with_activities
    (map_imap (fun n a =>
       Some (if Activity.IsActive a && bool_decide (n ∉ cfg)
             then Activity.Deactivate a else a))) m.

(** Modelled from the spec: the step of [_activate_major_mode] that
    activates a configured activity unless it is active already. *)
Definition activate_configured (m : ModeManager) (n : string) : ModeManager :=
  match FindActivity n m with
  | (Some a, m1) =>
      if Activity.IsActive a then m1
      else with_activities (<[n := Activity.Activate a]>) m1
  | (None, m1) => m1
  end.

(** Modelled from the spec: [_activate_major_mode] is missing. The current
    major mode, if any, is deactivated; with exclusivity the active
    activities outside the configuration are deactivated; the configured
    ones are activated; the major mode is activated and becomes current. *)
Definition _activate_major_mode (n : string) (m : ModeManager) : ModeManager :=
  match FindMode n m with
  | None => m
  | Some mode =>
      let m1 := with_major_mode
                  (prod_map id (fun c => MajorMode.with_base
                                (Mode.Deactivate (MajorMode.base c)) c)
                     <$> major_mode m) m in
      let m2 := if MajorMode.MustDeactivateUnrelatedModesOnActivation mode
                then deactivate_unrelated (MajorMode.ModeConfiguration mode) m1
                else m1 in
      let m3 := foldl activate_configured m2 (MajorMode.ModeConfiguration mode) in
      with_major_mode
        (Some (n, MajorMode.with_base (Mode.Activate (MajorMode.base mode)) mode))
        m3
  end.

(** *** The transaction queue *)

(** Modelled from the spec: [EnqueueTransaction] is missing; the queue is
    seen here in the order the consumer drains it. *)
Definition EnqueueTransaction (t : Transaction World) (m : ModeManager)
    : ModeManager :=
  with_queue (queue m ++ [t]) m.

(** Modelled from the spec: [UpdateTransactionQueueActivationAndModes] is
    missing. The queue is drained to empty, every transaction appended to
    the journal in drain order; then the switch named by the pending slot is
    applied and the slot is cleared. While nothing is pending the slot holds
    the empty string, its initial value, which names no major mode unless
    one was registered under it. *)
Definition UpdateTransactionQueueActivationAndModes (m : ModeManager)
    : option ModeManager :=
  wj ← Appends (queue m) (world m, _journal m);
  let m1 := with_drained wj m in
  Some (with_pending "" (_activate_major_mode (_major_mode_pending m1) m1)).

(** *** Viewport arbitration *)

(** Modelled from the spec: the query of a bid slot. A null slot does not
    bid; [-1] is the value that says so. *)
Definition bid_of (slot : option (Self -> View.LabViewInteraction -> Z))
    (s : Self) (vi : View.LabViewInteraction) : Z :=
  match slot with
  | Some f => f s vi
  | None => (-1)%Z
  end.

(** Modelled from the spec: the bids of the active activities, in
    registration order. *)
Definition bids (slot : LabActivity Self ->
                        option (Self -> View.LabViewInteraction -> Z))
    (vi : View.LabViewInteraction) (m : ModeManager) : list (string * Z) :=
  omap (fun n =>
          a ← activities m !! n;
          if Activity.IsActive a
          then Some (n, bid_of (slot (Activity.activity (Activity.this a)))
                               (Activity.fields (Activity.this a)) vi)
          else None)
       (activity_names m).

(** Modelled from the spec: one step of the selection loop; a bid takes
    over when it is strictly above the highest seen so far. *)
Definition outbid (best : option string * Z) (c : string * Z)
    : option string * Z :=
  if (best.2 <? c.2)%Z then (Some c.1, c.2) else best.

(** Modelled from the spec: the selection of both [RunViewportHovering] and
    [RunViewportDragging]; the highest non-negative bid wins and, among
    equal bids, the activity registered first. *)
Definition arbitrate (l : list (string * Z)) : option string :=
  (foldl outbid (None, (-1)%Z) l).1.

(** Modelled from the spec: the call of a handler slot of a live activity;
    a null slot does nothing. *)
Definition run_handler
    (slot : LabActivity Self ->
            option (Self -> View.LabViewInteraction -> Self))
    (vi : View.LabViewInteraction) (a : Activity.t Self) : Activity.t Self :=
  match slot (Activity.activity (Activity.this a)) with
  | Some f =>
      Activity.with_this
        (Activity.mkState (Activity.activity (Activity.this a))
                          (f (Activity.fields (Activity.this a)) vi)) a
  | None => a
  end.

(** Modelled from the spec: [RunViewportHovering] is missing. *)
Definition RunViewportHovering (vi : View.LabViewInteraction)
    (m : ModeManager) : ModeManager :=
  match arbitrate (bids ViewportHoverBid vi m) with
  | Some n =>
      record_call (CallViewportHovering n)
        (with_activities (alter (run_handler ViewportHovering vi) n) m)
  | None => m
  end.

(** Modelled from the spec: [RunViewportDragging] is missing. The owner is
    chosen on a frame with [start]; the owner, if any, gets the frame; a
    frame with [end] releases the gesture once it is processed. *)
Definition RunViewportDragging (vi : View.LabViewInteraction)
    (m : ModeManager) : ModeManager :=
  let m1 := if View.start vi
            then with_dragging (arbitrate (bids ViewportDragBid vi m)) m
            else m in
  let m2 := match dragging m1 with
            | Some n =>
                record_call (CallViewportDragging n)
                  (with_activities (alter (run_handler ViewportDragging vi) n) m1)
            | None => m1
            end in
  if View.end_ vi then with_dragging None m2 else m2.

(** What can happen between two frames of a gesture: every activity may
    come back with another [ViewportDragBid]. *)
Definition rebid
    (f : string -> option (Self -> View.LabViewInteraction -> Z))
    (m : ModeManager) : ModeManager :=
  with_activities
    (map_imap (fun n a =>
       Some (Activity.with_this
               (Activity.mkState
                  (with_ViewportDragBid (f n) (Activity.activity (Activity.this a)))
                  (Activity.fields (Activity.this a))) a))) m.

(** A frame of input: the bids in force and the interaction. *)
Record Frame := mkFrame {
  frame_bids : string -> option (Self -> View.LabViewInteraction -> Z);
  frame_vi : View.LabViewInteraction
}.

Definition drag_frame (m : ModeManager) (f : Frame) : ModeManager :=
  RunViewportDragging (frame_vi f) (rebid (frame_bids f) m).

Definition drag_frames (fs : list Frame) (m : ModeManager) : ModeManager :=
  foldl drag_frame m fs.

(** The [ViewportDragging] calls that [k] frames make to the owner [o]. *)
Definition deliveries (o : option string) (k : nat) : list Call :=
  match o with
  | Some n => replicate k (CallViewportDragging n)
  | None => []
  end.



End Manager.

Arguments ModeManager : clear implicits.
Arguments Frame : clear implicits.

(** ** The member templates of [ModeManager] *)

Section Templates.
Context {Self World : Type}.

(** What a template argument [T] contributes to the manager: the static
    [T::sname()] and the run-time test that [std::dynamic_pointer_cast<T>]
    makes on an instance. *)
Record ClassOf (A : Type) := mkClassOf {
  sname : string;
  is_a : A -> bool
}.

(** [std::dynamic_pointer_cast<T>(p)]: null for a null [p] and for an
    instance that is not a [T]. *)
Definition dynamic_pointer_cast {A : Type} (T : ClassOf A) (p : option A)
    : option A :=
  x ← p; if is_a T x then Some x else None.

(** [RegisterActivity<ActivityType>(fn)]:
    [_register_activity(ActivityType::sname(), fn);] *)
Definition RegisterActivity (T : ClassOf (Activity.t Self))
    (fn : unit -> Activity.t Self) (m : ModeManager Self World)
    : ModeManager Self World :=
  _register_activity (sname T) fn m.

(** [RegisterMajorMode<MajorModeType>(fn)]:
    [_register_major_mode(MajorModeType::sname(), fn);] after a
    [static_assert] that the type derives from [MajorMode], which the type
    of [T] states here. *)
Definition RegisterMajorMode (T : ClassOf (MajorMode.t Self))
    (fn : unit -> MajorMode.t Self) (m : ModeManager Self World)
    : ModeManager Self World :=
  _register_major_mode (sname T) fn m.

(** [FindMode<T>()]: [auto m = FindMode(T::sname());
    return std::dynamic_pointer_cast<T>(m);] *)
Definition FindMode_as (T : ClassOf (MajorMode.t Self))
    (m : ModeManager Self World) : option (MajorMode.t Self) :=
  dynamic_pointer_cast T (FindMode (sname T) m).

(** A [std::weak_ptr<T>] to an activity is kept as the name under which the
    manager holds its pointee, [None] when it is empty. The manager never
    drops an instance, so the handle locks exactly when an instance is held
    under that name. *)
Definition lock (h : option string) (m : ModeManager Self World)
    : option (Activity.t Self) :=
  n ← h; activities m !! n.

(** [LockActivity<T>(std::weak_ptr<T>& m)]:
    [auto r = m.lock();
     if (!r) { auto activity = FindActivity(T::sname());
               if (activity) { m = std::dynamic_pointer_cast<T>(activity);
                               r = std::dynamic_pointer_cast<T>(m.lock()); } }
     return r;]
    The result, the handle as the call leaves it, and the manager. *)
Definition LockActivity (T : ClassOf (Activity.t Self)) (h : option string)
    (m : ModeManager Self World)
    : option (Activity.t Self) * option string * ModeManager Self World :=
  match lock h m with
  | Some r => (Some r, h, m)
  | None =>
      match FindActivity (sname T) m with
      | (Some a, m1) =>
          let h1 := (fun _ => sname T) <$> dynamic_pointer_cast T (Some a) in
          (dynamic_pointer_cast T (lock h1 m1), h1, m1)
      | (None, m1) => (None, h, m1)
      end
  end.

(** A run of calls to the entry points of one object, [true] standing for
    [Activate()] and [false] for [Deactivate()]. *)
Definition Activity_calls (bs : list bool) (a : Activity.t Self)
    : Activity.t Self :=
  foldl (fun a b => if b : bool then Activity.Activate a
                    else Activity.Deactivate a) a bs.

Definition Mode_calls (bs : list bool) (m : Mode.t Self) : Mode.t Self :=
  foldl (fun m b => if b : bool then Mode.Activate m else Mode.Deactivate m)
        m bs.

(** The body shared by [ActivateActivity] and [DeactivateActivity], with
    the entry point it calls left open. *)
Definition on_activity (f : Activity.t Self -> Activity.t Self) (n : string)
    (m : ModeManager Self World) : ModeManager Self World :=
  match FindActivity n m with
  | (Some a, m1) => _set_activities (with_activities (<[n := f a]>) m1)
  | (None, m1) => m1
  end.

End Templates.

Arguments ClassOf : clear implicits.

(** ** The plugin template (the Zig source) *)

From stdpp Require Import pretty.

(** A line feed, the ["\n"] of the format strings. *)
Definition nl : string := String (Ascii.ascii_of_nat 10) "".

(** [usize] on a 64-bit target. *)
Definition usize_max : Z := 2 ^ 64 - 1.

Module MyActivity.

(** [const MyActivity = struct { name, active = false, update_count = 0,
    render_count = 0 }]. *)
Record t := mk {
  name : string;
  active : bool;
  update_count : Z;
  render_count : Z
}.

(** [var ma = MyActivity{ .name = "global" };] *)
Definition ma : t := mk "global" false 0 0.

(** [actual.active = true;] *)
Definition Activate (self : t) : t :=
  mk (name self) true (update_count self) (render_count self).

(** [actual.active = false;] *)
Definition Deactivate (self : t) : t :=
  mk (name self) false (update_count self) (render_count self).

(** [actual.update_count += 1; std.debug.print("Updated! {d}\n", ...);]
    The result is the new state and the text printed. [+=] on a [usize]
    that is already at its maximum overflows, which Zig does not define (a
    panic in safe builds): [None]. *)
Definition Update (self : t) : option (t * list string) :=
  if (update_count self <? usize_max)%Z
  then let c := (update_count self + 1)%Z in
       Some (mk (name self) (active self) c (render_count self),
             ["Updated! " +:+ pretty c +:+ nl])
  else None.

(** [actual.render_count += 1; std.debug.print("Rendered! {d}\n", ...);] *)
Definition Render (self : t) (_ : View.LabViewInteraction)
    : option (t * list string) :=
  if (render_count self <? usize_max)%Z
  then let c := (render_count self + 1)%Z in
       Some (mk (name self) (active self) (update_count self) c,
             ["Rendered! " +:+ pretty c +:+ nl])
  else None.

(** [std.debug.print("runui!\n", .{});] *)
Definition RunUI (self : t) (_ : View.LabViewInteraction)
    : option (t * list string) :=
  Some (self, ["runui!" +:+ nl]).

End MyActivity.

(** What is behind the [?*anyopaque] of a slot while the plugin runs: the
    instance and what it has printed so far, or [None] once it has
    panicked. *)
Definition Plugin : Type := option (MyActivity.t * list string).

(** A function of the plugin as a slot of the table. *)
Definition as_slot (f : MyActivity.t -> option (MyActivity.t * list string))
    (p : Plugin) : Plugin :=
  '(s, out) ← p; '(s1, o) ← f s; Some (s1, out ++ o).

(** [export fn make_activity() LabActivity]: the slots [Activate],
    [Deactivate], [Update], [Render], [RunUI] and the name are given, the
    other fields keep their defaults. *)
Definition make_activity : LabActivity Plugin :=
  mkLabActivity
    (Some (as_slot (fun s => Some (MyActivity.Activate s, []))))
    (Some (as_slot (fun s => Some (MyActivity.Deactivate s, []))))
    (Some (as_slot MyActivity.Update))
    (Some (fun p vi => as_slot (fun s => MyActivity.Render s vi) p))
    (Some (fun p vi => as_slot (fun s => MyActivity.RunUI s vi) p))
    None None None None None None
    (MyActivity.name MyActivity.ma) false.

(** [i32] and [export fn add(a: i32, b: i32) i32 { return a + b; }]: the
    sum when it is an [i32]; an overflow, which Zig does not define (a panic
    in safe builds), is [None]. *)
Definition is_i32 (a : Z) : bool := ((- 2 ^ 31 <=? a) && (a <? 2 ^ 31))%Z.

Definition add (a b : Z) : option Z :=
  if is_i32 (a + b) then Some (a + b)%Z else None.

(** The lines that [k] calls of [Update] print from the count [c]. *)
Definition update_lines (c : Z) (k : nat) : list string :=
  (fun i : nat => "Updated! " +:+ pretty (c + Z.of_nat (S i))%Z +:+ nl)
    <$> seq 0 k.

(** The calls a host can make through the five slots that [make_activity]
    fills in. *)
Inductive SlotCall :=
  | DoActivate
  | DoDeactivate
  | DoUpdate
  | DoRender (vi : View.LabViewInteraction)
  | DoRunUI (vi : View.LabViewInteraction).

(** The slot of a table that a call goes through. *)
Definition slot_of {Self : Type} (tbl : LabActivity Self) (c : SlotCall)
    : option (Self -> Self) :=
  match c with
  | DoActivate => Activate tbl
  | DoDeactivate => Deactivate tbl
  | DoUpdate => Update tbl
  | DoRender vi => (fun f self => f self vi) <$> Render tbl
  | DoRunUI vi => (fun f self => f self vi) <$> RunUI tbl
  end.

(** A run of calls through the table of [make_activity], first call
    first. *)
Definition plugin_run (cs : list SlotCall) (p : Plugin) : Plugin :=
  foldl (fun p c => from_option (fun f => f p) p (slot_of make_activity c))
        p cs.

Definition is_update (c : SlotCall) : bool :=
  match c with DoUpdate => true | _ => false end.

Definition is_render (c : SlotCall) : bool :=
  match c with DoRender _ => true | _ => false end.

Definition is_runui (c : SlotCall) : bool :=
  match c with DoRunUI _ => true | _ => false end.

(** How many calls of a run are of one kind. *)
Definition tally (f : SlotCall -> bool) (cs : list SlotCall) : nat :=
  length (List.filter f cs).

(** The flag that the [Activate] and [Deactivate] calls of a run leave. *)
Definition flag_after (cs : list SlotCall) (b : bool) : bool :=
  foldl (fun b c => match c with
                    | DoActivate => true
                    | DoDeactivate => false
                    | _ => b
                    end) b cs.

(** ** Sample objects

    Instances with a counter as their own state, and a document that is a
    counter as well. They are the inputs at which the statements below are
    exercised. *)

(** A journal after two appends, with [_curr] moved back to the root. *)
Definition rewound : Journal nat :=
  mkJournal
    {[ 0 := mkNode Transaction_default (Some 1) None None;
       1 := mkNode (Transaction_of "first" S) (Some 2) None (Some 0);
       2 := mkNode (Transaction_of "second" S) None None (Some 1) ]}
    3 0.

(** A journal after two appends and a fork at the second node, with
    [_curr] moved back to the root: node 3 is the alternate continuation
    after node 1, hanging off node 2 as its sibling. *)
Definition branched : Journal nat :=
  mkJournal
    {[ 0 := mkNode Transaction_default (Some 1) None None;
       1 := mkNode (Transaction_of "first" S) (Some 2) None (Some 0);
       2 := mkNode (Transaction_of "second" S) None (Some 3) (Some 1);
       3 := mkNode (Transaction_of "third" S) None None (Some 1) ]}
    4 0.


(** An activity that overrides nothing. *)
Definition plain_activity (n : string) : Activity.t nat :=
  Activity.mk n Activity.default_hook Activity.default_hook
    (Activity.mkState (LabActivity_init n) 0).

(** An activity whose [_activate] decides it cannot run and clears
    [activity.active] again, and whose [_deactivate] sets it. *)
Definition contrary_activity (n : string) : Activity.t nat :=
  Activity.mk n (Activity.set_active false) (Activity.set_active true)
    (Activity.mkState (LabActivity_init n) 0).

(** An activity whose hooks count how often they run. *)
Definition counting_activity (n : string) : Activity.t nat :=
  Activity.mk n
    (fun s => Activity.mkState (Activity.activity s) (S (Activity.fields s)))
    (fun s => Activity.mkState (Activity.activity s) (S (Activity.fields s)))
    (Activity.mkState (LabActivity_init n) 0).

(** A mode that overrides nothing, and one whose hooks write [_active]. *)
Definition plain_mode (n : string) : Mode.t nat :=
  Mode.mk n Mode.default_hook Mode.default_hook (Mode.mkState false 0).

Definition contrary_mode (n : string) : Mode.t nat :=
  Mode.mk n (Mode.set_active false) (Mode.set_active true)
    (Mode.mkState false 0).

(** An active activity that always returns the same two bids. *)
Definition bidder (n : string) (hover drag : Z) : Activity.t nat :=
  Activity.mk n Activity.default_hook Activity.default_hook
    (Activity.mkState
       (mkLabActivity None None None None None None None
          (Some (fun _ _ => hover)) (Some (fun s _ => S s))
          (Some (fun _ _ => drag)) (Some (fun s _ => S s))
          n true)
       0).

Definition no_view : View.LabViewDimensions :=
  View.mkDimensions 0%Z 0%Z 0%Z 0%Z 0%Z 0%Z.

Definition interaction (s e : bool) : View.LabViewInteraction :=
  View.mkInteraction no_view 0%Z 0%Z 0%Z s e.

(** Major modes "edit", exclusive, configured with activity "a", and
    "play", exclusive, configured with nothing. *)
Definition edit_mode : MajorMode.t nat := MajorMode.make (plain_mode "edit") ["a"].
Definition play_mode : MajorMode.t nat := MajorMode.make (plain_mode "play") [].

(** A manager with activities "a" and "b" and both major modes registered,
    nothing live yet. *)
Definition studio : ModeManager nat nat :=
  _register_major_mode "play" (fun _ => play_mode)
    (_register_major_mode "edit" (fun _ => edit_mode)
       (_register_activity "b" (fun _ => plain_activity "b")
          (_register_activity "a" (fun _ => plain_activity "a")
             (ModeManager_new 0 0)))).

(** The same with "a" live and active. *)
Definition studio_a : ModeManager nat nat := ActivateActivity "a" studio.

(** The studio with "b" live and active, and "a" not yet built. *)
Definition studio_b : ModeManager nat nat := ActivateActivity "b" studio.

(** A manager whose activity "a" is the contrary one. *)
Definition contrary_studio : ModeManager nat nat :=
  _register_major_mode "edit" (fun _ => edit_mode)
    (_register_activity "a" (fun _ => contrary_activity "a")
       (ModeManager_new 0 0)).

(** Three live, active bidders registered in the order p, q, r. *)
Definition stage (p q r : Z) : ModeManager nat nat :=
  mkModeManager
    {[ "p" := fun _ => bidder "p" p p; "q" := fun _ => bidder "q" q q;
       "r" := fun _ => bidder "r" r r ]}
    ["p"; "q"; "r"] ∅ []
    {[ "p" := bidder "p" p p; "q" := bidder "q" q q; "r" := bidder "r" r r ]}
    {[ "p"; "q"; "r" ]} None None [] (Journal_new 0) "" 0 [].

(** The frame that starts a gesture, with r bidding highest, and a later
    frame on which p bids highest. *)
Definition first_frame : Frame nat :=
  mkFrame (fun n => Some (fun _ _ => if String.eqb n "r" then 7 else 3)%Z)
          (interaction true false).

Definition later_frame : Frame nat :=
  mkFrame (fun n => Some (fun _ _ => if String.eqb n "p" then 9 else (-1))%Z)
          (interaction false false).

(** The class of the activities that call themselves [n], and the same for
    major modes: [Name()] stands in for the dynamic type. *)
Definition activity_class (n : string) : ClassOf (Activity.t nat) :=
  mkClassOf n (fun a => String.eqb (Activity.Name a) n).

Definition major_mode_class (n : string) : ClassOf (MajorMode.t nat) :=
  mkClassOf n (fun x => String.eqb (Mode.Name (MajorMode.base x)) n).

(** The plugin of the template as an activity of the host, and a manager
    that holds it, active, next to a bidder. *)
Definition plugin_activity : Activity.t Plugin :=
  Activity.mk "global" Activity.default_hook Activity.default_hook
    (Activity.mkState (with_active true make_activity)
                      (Some (MyActivity.ma, []))).

Definition plugin_rival : Activity.t Plugin :=
  Activity.mk "rival" Activity.default_hook Activity.default_hook
    (Activity.mkState
       (mkLabActivity None None None None None None None
          (Some (fun _ _ => (-1)%Z)) None (Some (fun _ _ => (-1)%Z)) None
          "rival" true)
       None).

Definition plugin_host : ModeManager Plugin nat :=
  mkModeManager
    {[ "global" := fun _ => plugin_activity; "rival" := fun _ => plugin_rival ]}
    ["global"; "rival"] ∅ []
    {[ "global" := plugin_activity; "rival" := plugin_rival ]}
    {[ "global"; "rival" ]} None None [] (Journal_new 0) "" 0 [].

(** * Properties of the journal *)

Section JournalTheory.
Context {World : Type}.
Implicit Types (j : Journal World) (l : list addr) (o : option addr).
Implicit Types (link : JournalNode World -> option addr).

Lemma chain_det link j o l l' :
  chain link j o l -> chain link j o l' -> l = l'.
Proof.
  intros H. revert l'. induction H as [|p n l Hp _ IH]; intros l' H'.
  - by inversion H'.
  - inversion H' as [|p' n' l'' Hp' Hc']; subst.
    rewrite Hp in Hp'. injection Hp' as <-. f_equal. by apply IH.
Qed.

Lemma chain_suffix link j o l1 p l2 :
  chain link j o (l1 ++ p :: l2) -> chain link j (Some p) (p :: l2).
Proof.
  revert o. induction l1 as [|a l1 IH]; intros o H; simpl in H.
  - inversion H as [|p' n l Hp Hc]. econstructor; eassumption.
  - inversion H as [|p' n l Hp Hc]. exact (IH _ Hc).
Qed.

Lemma chain_allocated link j o l a :
  chain link j o l -> a ∈ l -> is_Some (nodes j !! a).
Proof.
  induction 1 as [|p n l Hp _ IH]; intros Ha.
  - by apply elem_of_nil in Ha.
  - apply elem_of_cons in Ha as [->|Ha]; eauto.
Qed.

(** A chain that reaches null never visits a node twice. *)
Lemma chain_NoDup link j o l : chain link j o l -> NoDup l.
Proof.
  induction 1 as [|p n l Hp Hc IH]; [constructor|].
  constructor; [|done]. intros Hin. apply list_elem_of_split in Hin as (l1 & l2 & ->).
  pose proof (chain_suffix Hc) as Hs.
  assert (chain link j (Some p) (p :: l1 ++ p :: l2)) as Hfull
    by (econstructor; eauto).
  pose proof (chain_det Hs Hfull) as Heq.
  apply (f_equal length) in Heq. simpl in Heq.
  rewrite length_app in Heq. simpl in Heq. lia.
Qed.

Lemma chain_length link j o l : chain link j o l -> length l <= size (nodes j).
Proof.
  intros H. rewrite <-size_dom, <-(size_list_to_set (C:=gset addr) l)
    by eauto using chain_NoDup.
  apply subseteq_size. intros a Ha%elem_of_list_to_set.
  apply elem_of_dom. eauto using chain_allocated.
Qed.


Lemma dom_foldr_delete (m : gmap addr (JournalNode World)) l :
  dom (foldr delete m l) = dom m ∖ list_to_set l.
Proof.
  induction l as [|a l IH]; simpl.
  - by rewrite difference_empty_L.
  - rewrite dom_delete_L, IH. apply set_eq. intros x.
    rewrite !elem_of_difference, elem_of_union, elem_of_singleton. tauto.
Qed.

Lemma lookup_foldr_delete_notin (m : gmap addr (JournalNode World)) l a :
  a ∉ l -> foldr delete m l !! a = m !! a.
Proof.
  induction l as [|b l IH]; simpl; [done|].
  intros [? ?]%not_elem_of_cons. rewrite lookup_delete_ne by done. auto.
Qed.

(** The destructor is [Truncate(this)], then [--count], then the release
    of the storage. *)
Lemma delete_node_S fuel p j :
  delete_node (S fuel) p j =
    j1 ← Truncate fuel p j;
    Some (mkJournal (delete p (nodes j1)) (count j1 - 1) (_curr j1)).
Proof.
  unfold Truncate. simpl. by destruct (nodes j !! p).
Qed.

(** Deleting the head of a chain removes exactly the chain. *)
Lemma delete_node_chain j q l fuel :
  chain next j (Some q) l -> length l <= fuel ->
  delete_node fuel q j =
    Some (mkJournal (foldr delete (nodes j) l)
                    (count j - Z.of_nat (length l)) (_curr j)).
Proof.
  revert q l. induction fuel as [|f IH]; intros q l H Hlen.
  - inversion H; subst. simpl in Hlen. lia.
  - inversion H as [|p n l' Hp Hc]; subst. simpl in Hlen.
    simpl. rewrite Hp. simpl.
    destruct (next n) as [q'|] eqn:Hn.
    + rewrite (IH q' l') by (done || lia). simpl.
      f_equal. unfold set_next, with_nodes. simpl.
      rewrite delete_alter_eq. f_equal; lia.
    + inversion Hc; subst. simpl. do 2 f_equal; lia.
Qed.

Lemma Truncate_chain j c l n fuel :
  chain next j (Some c) (c :: l) -> nodes j !! c = Some n ->
  length l <= fuel ->
  Truncate fuel c j =
    Some (mkJournal
            (<[c := mkNode (transaction n) None (sibling n) (parent n)]>
               (foldr delete (nodes j) l))
            (count j - Z.of_nat (length l)) (_curr j)).
Proof.
  intros H Hn Hlen. pose proof (chain_NoDup H) as Hnd.
  apply NoDup_cons in Hnd as [Hc _].
  inversion H as [|p n' l' Hp Hch]; subst.
  rewrite Hn in Hp. injection Hp as <-.
  unfold Truncate. rewrite Hn. simpl.
  destruct (next n) as [q|] eqn:Hnext.
  - rewrite (delete_node_chain Hch Hlen). simpl.
    unfold set_next, with_nodes. simpl. f_equal. f_equal.
    apply map_eq. intros i. rewrite lookup_alter, lookup_insert.
    destruct (decide (c = i)) as [->|]; [|done].
    by rewrite lookup_foldr_delete_notin, Hn.
  - inversion Hch; subst. simpl. destruct j as [m k cu]. simpl in *.
    f_equal. f_equal; [|lia].
    symmetry. apply insert_id. rewrite Hn. f_equal.
    destruct n; simpl in *; congruence.
Qed.

(** The effect of [Append] on any journal whose future is a finite chain. *)
Lemma Append_chain (t : Transaction World) (w : World) j c l n :
  chain next j (Some (_curr j)) (c :: l) -> nodes j !! _curr j = Some n ->
  let a := fresh (dom (nodes j) ∖ list_to_set l) in
  Append t (w, j) =
    Some (exec t w,
          mkJournal
            (<[_curr j := mkNode (transaction n) (Some a) (sibling n) (parent n)]>
               (<[a := mkNode t None None (Some (_curr j))]>
                  (foldr delete (nodes j) l)))
            (count j - Z.of_nat (length l) + 1) a).
Proof.
  intros H Hn a. assert (c = _curr j) as -> by (by inversion H).
  pose proof (chain_NoDup H) as Hnd. apply NoDup_cons in Hnd as [Hc _].
  pose proof (chain_length H) as Hlen. simpl in Hlen.
  unfold Append. simpl.
  rewrite (Truncate_chain (fuel:=size (nodes j)) H Hn) by lia. simpl.
  assert (dom (<[_curr j := mkNode (transaction n) None (sibling n) (parent n)]>
                 (foldr delete (nodes j) l))
          = dom (nodes j) ∖ list_to_set l) as Hdom.
  { rewrite dom_insert_L, dom_foldr_delete. apply set_eq. intros x.
    rewrite elem_of_union, elem_of_singleton, !elem_of_difference,
      elem_of_list_to_set.
    split; [intros [->|?]; [|done]|by right].
    split; [apply elem_of_dom; eauto|done]. }
  rewrite Hdom. fold a.
  assert (a ≠ _curr j) as Hne.
  { intros Heq. pose proof (is_fresh (dom (nodes j) ∖ list_to_set l)) as Hf.
    fold a in Hf. apply Hf. rewrite Heq.
    apply elem_of_difference. split; [apply elem_of_dom; eauto|].
    by rewrite elem_of_list_to_set. }
  f_equal. f_equal. simpl. f_equal.
  apply map_eq. intros i.
  rewrite lookup_alter. rewrite !lookup_insert.
  repeat case_decide; simplify_eq; done.
Qed.

End JournalTheory.

Section LinearHistory.
Context {World : Type}.
Implicit Types (j : Journal World) (l : list addr) (o : option addr).
Implicit Types (link : JournalNode World -> option addr).



(** Hanging a fresh node after the last node of a chain extends the chain. *)
Lemma chain_snoc link j j' p l c a n' x :
  chain link j (Some p) (l ++ [c]) -> a ∉ l ++ [c] ->
  nodes j' !! c = Some n' -> link n' = Some a ->
  nodes j' !! a = Some x -> link x = None ->
  (forall b, b ≠ c -> b ≠ a -> nodes j' !! b = nodes j !! b) ->
  chain link j' (Some p) (l ++ [c; a]).
Proof.
  intros H Ha Hc' Hl' Ha' Hx Hsame. pose proof (chain_NoDup H) as Hnd.
  revert p H Hnd Ha. induction l as [|b l IH]; intros p H Hnd Ha; simpl in *.
  - inversion H as [|p' n l' Hp Hc]; subst.
    econstructor; [exact Hc'|]. rewrite Hl'.
    econstructor; [exact Ha'|]. rewrite Hx. constructor.
  - inversion H as [|p' n l' Hp Hc]; subst.
    apply not_elem_of_cons in Ha as [Hab Ha].
    apply NoDup_cons in Hnd as [Hb Hnd].
    assert (b ≠ c) as Hbc
      by (intros ->; apply Hb, elem_of_app; right; by left).
    econstructor.
    + rewrite Hsame by done. exact Hp.
    + destruct (link n) as [q|] eqn:Hq.
      * by apply IH.
      * inversion Hc as [Heq|]. by destruct l.
Qed.






End LinearHistory.

Section AppendClaim.
Context {World : Type}.
Implicit Types (j : Journal World) (l : list addr).



(** *** The static count *)








(** *** Journals without forks *)




End AppendClaim.

Section ForkClaim.
Context {World : Type}.
Implicit Types (j : Journal World) (l : list addr).

Lemma last_sibling_chain j p l e fuel :
  chain sibling j (Some p) (l ++ [e]) -> length (l ++ [e]) <= fuel ->
  last_sibling fuel p j = Some e.
Proof.
  revert p fuel. induction l as [|b l IH]; intros p fuel H Hlen;
    destruct fuel as [|f]; simpl in *; try lia;
    inversion H as [|p' n l' Hp Hc]; subst; rewrite Hp; simpl.
  - destruct (sibling n) as [q|] eqn:Hq; [inversion Hc|done].
  - destruct (sibling n) as [q|] eqn:Hq.
    + apply IH; [done|lia].
    + inversion Hc as [Heq|]. by destruct l.
Qed.

Lemma reachable_mono j j' p q :
  keeps_links j j' -> reachable j p q -> reachable j' p q.
Proof.
  intros Hk. induction 1 as [p [n Hp]|p n q r Hp Hn _ IH|p n q r Hp Hs _ IH].
  - destruct (Hk _ _ Hp) as (n' & Hp' & _). apply reach_here. eauto.
  - destruct (Hk _ _ Hp) as (n' & Hp' & Hn' & _).
    eapply reach_next; eauto. congruence.
  - destruct (Hk _ _ Hp) as (n' & Hp' & _ & Hs').
    eapply reach_sibling; eauto.
Qed.

Lemma reachable_sibling_chain j p l a :
  chain sibling j (Some p) l -> a ∈ l -> reachable j p a.
Proof.
  intros H. revert a. remember (Some p) as o eqn:Ho. revert p Ho.
  induction H as [|p' n l Hp Hc IH]; intros p Ho a Ha; [done|].
  injection Ho as ->. apply elem_of_cons in Ha as [->|Ha].
  - apply reach_here. eauto.
  - destruct (sibling n) as [q|] eqn:Hq.
    + eapply reach_sibling; eauto.
    + inversion Hc; subst. by apply elem_of_nil in Ha.
Qed.

(** The effect of [Fork] on any journal in which the sibling chain of
    [_curr] is finite and ends at [e]. *)
Lemma Fork_chain (t : Transaction World) (w : World) j l e cn en :
  chain sibling j (Some (_curr j)) (l ++ [e]) ->
  nodes j !! _curr j = Some cn -> nodes j !! e = Some en ->
  let a := fresh (dom (nodes j)) in
  Fork t (w, j) =
    Some (exec t w,
          mkJournal
            (<[e := mkNode (transaction en) (next en) (Some a) (parent en)]>
               (<[a := mkNode t None None (parent cn)]> (nodes j)))
            (count j + 1) a).
Proof.
  intros H Hc He a. pose proof (chain_length H) as Hlen.
  assert (a ≠ e) as Hae.
  { intros Heq. apply (is_fresh (dom (nodes j))). fold a. rewrite Heq.
    apply elem_of_dom. eauto. }
  unfold Fork. simpl. rewrite Hc. simpl.
  rewrite (last_sibling_chain H Hlen). simpl. fold a.
  do 3 f_equal. apply map_eq. intros i.
  rewrite lookup_alter, !lookup_insert.
  repeat case_decide; simplify_eq; simpl; try done.
  by rewrite He.
Qed.

Lemma Fork_facts (t : Transaction World) (w : World) j l e cn :
  chain sibling j (Some (_curr j)) (l ++ [e]) ->
  nodes j !! _curr j = Some cn ->
  exists j' en,
    Fork t (w, j) = Some (exec t w, j') /\
    nodes j !! _curr j' = None /\
    nodes j' !! _curr j' = Some (mkNode t None None (parent cn)) /\
    nodes j !! e = Some en /\
    nodes j' !! e =
      Some (mkNode (transaction en) (next en) (Some (_curr j')) (parent en)) /\
    (forall q, q ≠ e -> q ≠ _curr j' -> nodes j' !! q = nodes j !! q) /\
    chain sibling j' (Some (_curr j)) (l ++ [e; _curr j']) /\
    count j' = (count j + 1)%Z.
Proof.
  intros H Hc.
  destruct (chain_allocated (a:=e) H) as [en He];
    [apply elem_of_app; right; by left|].
  pose proof (Fork_chain t w H Hc He) as HF. simpl in HF.
  set (a := fresh (dom (nodes j))) in *.
  assert (nodes j !! a = None) as Ha
    by (apply not_elem_of_dom, is_fresh).
  assert (a ≠ e) as Hae by congruence.
  assert (nodes
            (mkJournal
               (<[e := mkNode (transaction en) (next en) (Some a) (parent en)]>
                  (<[a := mkNode t None None (parent cn)]> (nodes j)))
               (count j + 1) a) !! a
          = Some (mkNode t None None (parent cn))) as Hnew.
  { simpl. rewrite lookup_insert_ne by done. apply lookup_insert_eq. }
  eexists _, en. split; [exact HF|]. simpl. split_and!; try done.
  - apply lookup_insert_eq.
  - intros q Hqe Hqa. by rewrite !lookup_insert_ne.
  - eapply (chain_snoc (link:=sibling) H); simpl.
    + intros Hin. eapply chain_allocated in Hin as [x Hx]; [|exact H].
      congruence.
    + apply lookup_insert_eq.
    + done.
    + exact Hnew.
    + done.
    + intros b Hbe Hba. by rewrite !lookup_insert_ne.
Qed.

End ForkClaim.

Section ForkTheorem.
Context {World : Type}.
Implicit Types (j : Journal World) (l : list addr).

Lemma chain_same_nodes (link : JournalNode World -> option addr) j j' o l :
  nodes j' = nodes j -> chain link j o l -> chain link j' o l.
Proof.
  intros Heq. induction 1 as [|p n l Hp _ IH]; econstructor; eauto.
  by rewrite Heq.
Qed.

Lemma Fork_keeps_links (t : Transaction World) (w w' : World) j j' l e cn :
  chain sibling j (Some (_curr j)) (l ++ [e]) ->
  nodes j !! _curr j = Some cn ->
  Fork t (w, j) = Some (w', j') -> keeps_links j j'.
Proof.
  intros H Hc HF.
  destruct (Fork_facts t w H Hc)
    as (j1 & en & HF1 & Hfresh & Hnew & He & He' & Hsame & _).
  rewrite HF in HF1. injection HF1 as _ <-.
  intros b n Hb. destruct (decide (b = e)) as [->|Hbe].
  - rewrite He in Hb. injection Hb as <-.
    eexists. split; [exact He'|]. simpl. split; [done|].
    intros q Hq. pose proof (chain_suffix H) as Hs.
    inversion Hs as [|p n l' Hp Hc']; subst.
    rewrite He in Hp. injection Hp as <-. rewrite Hq in Hc'. inversion Hc'.
  - exists n. rewrite Hsame by congruence. done.
Qed.

(** C6. [Journal::Fork(t)] runs [t.exec], creates a node in unused storage,
    hangs it after the last node [e] of the sibling chain of [_curr] and
    makes it [_curr]: every node that existed is still there with its
    transaction and its links, the sibling chain is the old one with the
    new node at its end, and whatever was reachable stays reachable. Two
    forks from one node, whether [_curr] is moved back to that node in
    between or not, leave two distinct new siblings, both on the sibling
    chain of that node and reachable from it. *)
Theorem Fork_keeps_siblings :
  (forall (t : Transaction World) (w : World) j l e cn,
      chain sibling j (Some (_curr j)) (l ++ [e]) ->
      nodes j !! _curr j = Some cn ->
      exists j' en,
        Fork t (w, j) = Some (exec t w, j') /\
        nodes j !! _curr j' = None /\
        nodes j' !! _curr j' = Some (mkNode t None None (parent cn)) /\
        nodes j !! e = Some en /\
        nodes j' !! e =
          Some (mkNode (transaction en) (next en) (Some (_curr j')) (parent en)) /\
        (forall q, q ≠ e -> q ≠ _curr j' -> nodes j' !! q = nodes j !! q) /\
        chain sibling j' (Some (_curr j)) (l ++ [e; _curr j']) /\
        count j' = (count j + 1)%Z /\
        (forall p q, reachable j p q -> reachable j' p q) /\
        reachable j' (_curr j) (_curr j'))
  /\
  (forall (t1 t2 : Transaction World) (w : World) j l e cn,
      chain sibling j (Some (_curr j)) (l ++ [e]) ->
      nodes j !! _curr j = Some cn ->
      exists j1 j2,
        Fork t1 (w, j) = Some (exec t1 w, j1) /\
        Fork t2 (exec t1 w, j1) = Some (exec t2 (exec t1 w), j2) /\
        Fork t2 (exec t1 w, goto (_curr j) j1) = Some (exec t2 (exec t1 w), j2) /\
        chain sibling j2 (Some (_curr j)) (l ++ [e; _curr j1; _curr j2]) /\
        _curr j1 ≠ _curr j2 /\
        reachable j2 (_curr j) (_curr j1) /\
        reachable j2 (_curr j) (_curr j2) /\
        reachable j2 (_curr j) (_curr j)).
Proof.
  split.
  - intros t w j l e cn H Hc.
    destruct (Fork_facts t w H Hc)
      as (j' & en & HF & Hfresh & Hnew & He & He' & Hsame & Hch & Hcnt).
    exists j', en. split_and!; try done.
    + intros p q. apply reachable_mono. eapply Fork_keeps_links; eauto.
    + eapply reachable_sibling_chain; [exact Hch|].
      rewrite elem_of_app, !elem_of_cons. auto.
  - intros t1 t2 w j l e cn H Hc.
    destruct (Fork_facts t1 w H Hc)
      as (j1 & en & HF1 & Hfresh1 & Hnew1 & He & He1 & Hsame1 & Hch1 & Hcnt1).
    set (a1 := _curr j1) in *. set (c := _curr j) in *.
    assert (c ≠ a1) as Hca by congruence.
    assert (exists cn1, nodes j1 !! c = Some cn1 /\ parent cn1 = parent cn)
      as (cn1 & Hc1 & Hpar).
    { destruct (decide (c = e)) as [Hce|Hce].
      - rewrite <-Hce in He, He1. rewrite Hc in He. injection He as <-.
        eexists. split; [exact He1|done].
      - exists cn. by rewrite Hsame1. }
    assert (chain sibling j1 (Some a1) ([] ++ [a1])) as Hcha.
    { replace (l ++ [e; a1]) with ((l ++ [e]) ++ a1 :: []) in Hch1
        by (by rewrite <-app_assoc).
      exact (chain_suffix Hch1). }
    assert (chain sibling (goto c j1) (Some (_curr (goto c j1)))
              ((l ++ [e]) ++ [a1])) as Hchc.
    { rewrite <-app_assoc. simpl.
      by apply (chain_same_nodes (j:=j1)). }
    pose proof (Fork_chain t2 (exec t1 w) Hcha Hnew1 Hnew1) as HA. simpl in HA.
    pose proof (Fork_chain t2 (exec t1 w) (j:=goto c j1) Hchc Hc1 Hnew1) as HB.
    simpl in HB. rewrite Hpar in HB.
    destruct (Fork_facts t2 (exec t1 w) (j:=goto c j1) Hchc Hc1)
      as (j2 & en2 & HF2 & Hfresh2 & Hnew2 & He2 & He2' & Hsame2 & Hch2 & Hcnt2).
    simpl in *. rewrite <-app_assoc in Hch2. simpl in Hch2.
    exists j1, j2. split_and!.
    + done.
    + rewrite HA. rewrite HB in HF2. exact HF2.
    + done.
    + exact Hch2.
    + intros Heq. fold a1 in Heq. rewrite Heq in Hnew1. congruence.
    + eapply reachable_sibling_chain; [exact Hch2|].
      rewrite !elem_of_app, !elem_of_cons. auto.
    + eapply reachable_sibling_chain; [exact Hch2|].
      rewrite !elem_of_app, !elem_of_cons. auto.
    + inversion Hch2; subst. apply reach_here. eauto.
Qed.

End ForkTheorem.

(** * Properties of [Activity] and [Mode] *)

Section Lifecycle.
Context {Self : Type}.

Lemma Activity_Activate_keeps (a : Activity.t Self) :
  (forall s, active (Activity.activity (Activity._activate a s))
             = active (Activity.activity s)) ->
  Activity.IsActive (Activity.Activate a) = true.
Proof. intros H. unfold Activity.IsActive. simpl. by rewrite H. Qed.

Lemma Activity_Deactivate_keeps (a : Activity.t Self) :
  (forall s, active (Activity.activity (Activity._deactivate a s))
             = active (Activity.activity s)) ->
  Activity.IsActive (Activity.Deactivate a) = false.
Proof. intros H. unfold Activity.IsActive. simpl. by rewrite H. Qed.

(** C7, for hooks that leave the flag alone. [Activate()] sets the flag
    and then runs the hook on the object so flagged, [Deactivate()] likewise
    with the flag cleared; after the call [IsActive()] is true (respectively
    false) whenever the hook leaves the flag as it found it, and so whenever
    the subclass does not override the hook. This holds for [Activity] and
    for [Mode]. *)
Theorem flag_set_before_hook :
  (forall a : Activity.t Self,
      Activity.this (Activity.Activate a)
        = Activity._activate a (Activity.set_active true (Activity.this a)) /\
      active (Activity.activity (Activity.set_active true (Activity.this a)))
        = true /\
      Activity.this (Activity.Deactivate a)
        = Activity._deactivate a (Activity.set_active false (Activity.this a)) /\
      active (Activity.activity (Activity.set_active false (Activity.this a)))
        = false)
  /\
  (forall a : Activity.t Self,
      (forall s, active (Activity.activity (Activity._activate a s))
                 = active (Activity.activity s)) ->
      Activity.IsActive (Activity.Activate a) = true)
  /\
  (forall a : Activity.t Self,
      (forall s, active (Activity.activity (Activity._deactivate a s))
                 = active (Activity.activity s)) ->
      Activity.IsActive (Activity.Deactivate a) = false)
  /\
  (forall a : Activity.t Self,
      Activity._activate a = Activity.default_hook ->
      Activity.IsActive (Activity.Activate a) = true)
  /\
  (forall a : Activity.t Self,
      Activity._deactivate a = Activity.default_hook ->
      Activity.IsActive (Activity.Deactivate a) = false)
  /\
  (forall m : Mode.t Self,
      Mode.this (Mode.Activate m)
        = Mode._activate m (Mode.set_active true (Mode.this m)) /\
      Mode._active (Mode.set_active true (Mode.this m)) = true /\
      Mode.this (Mode.Deactivate m)
        = Mode._deactivate m (Mode.set_active false (Mode.this m)) /\
      Mode._active (Mode.set_active false (Mode.this m)) = false)
  /\
  (forall m : Mode.t Self,
      (forall s, Mode._active (Mode._activate m s) = Mode._active s) ->
      Mode.IsActive (Mode.Activate m) = true)
  /\
  (forall m : Mode.t Self,
      (forall s, Mode._active (Mode._deactivate m s) = Mode._active s) ->
      Mode.IsActive (Mode.Deactivate m) = false)
  /\
  (forall m : Mode.t Self,
      Mode._activate m = Mode.default_hook ->
      Mode.IsActive (Mode.Activate m) = true)
  /\
  (forall m : Mode.t Self,
      Mode._deactivate m = Mode.default_hook ->
      Mode.IsActive (Mode.Deactivate m) = false).
Proof.
  split_and!.
  - done.
  - apply Activity_Activate_keeps.
  - apply Activity_Deactivate_keeps.
  - intros a Hd. unfold Activity.IsActive. simpl. by rewrite Hd.
  - intros a Hd. unfold Activity.IsActive. simpl. by rewrite Hd.
  - done.
  - intros m H. unfold Mode.IsActive. simpl. by rewrite H.
  - intros m H. unfold Mode.IsActive. simpl. by rewrite H.
  - intros m Hd. unfold Mode.IsActive. simpl. by rewrite Hd.
  - intros m Hd. unfold Mode.IsActive. simpl. by rewrite Hd.
Qed.

Lemma Activity_iter_Activate (a : Activity.t Self) (k : nat) :
  Nat.iter k Activity.Activate a =
  Activity.with_this
    (Nat.iter k (fun s => Activity._activate a (Activity.set_active true s))
              (Activity.this a)) a.
Proof.
  induction k as [|k IH]; simpl.
  - by destruct a.
  - rewrite IH. done.
Qed.

Lemma Activity_iter_Deactivate (a : Activity.t Self) (k : nat) :
  Nat.iter k Activity.Deactivate a =
  Activity.with_this
    (Nat.iter k (fun s => Activity._deactivate a (Activity.set_active false s))
              (Activity.this a)) a.
Proof.
  induction k as [|k IH]; simpl.
  - by destruct a.
  - rewrite IH. done.
Qed.

Lemma Mode_iter_Activate (m : Mode.t Self) (k : nat) :
  Nat.iter k Mode.Activate m =
  Mode.with_this
    (Nat.iter k (fun s => Mode._activate m (Mode.set_active true s))
              (Mode.this m)) m.
Proof.
  induction k as [|k IH]; simpl.
  - by destruct m.
  - rewrite IH. done.
Qed.

Lemma Mode_iter_Deactivate (m : Mode.t Self) (k : nat) :
  Nat.iter k Mode.Deactivate m =
  Mode.with_this
    (Nat.iter k (fun s => Mode._deactivate m (Mode.set_active false s))
              (Mode.this m)) m.
Proof.
  induction k as [|k IH]; simpl.
  - by destruct m.
  - rewrite IH. done.
Qed.

(** C10. [Activate()] and [Deactivate()] do not look at the flag: whatever
    it was, the call sets it and applies the hook once to the object so
    flagged, so the outcome is the same from either prior flag value, and
    [k] calls in a row apply the hook [k] times. This holds for [Activity]
    and for [Mode]. *)
Theorem entry_points_are_unguarded :
  (forall (a : Activity.t Self) (b : bool),
      Activity.Activate
        (Activity.with_this (Activity.set_active b (Activity.this a)) a)
      = Activity.with_this
          (Activity._activate a (Activity.set_active true (Activity.this a))) a
      /\
      Activity.Deactivate
        (Activity.with_this (Activity.set_active b (Activity.this a)) a)
      = Activity.with_this
          (Activity._deactivate a (Activity.set_active false (Activity.this a))) a)
  /\
  (forall (a : Activity.t Self) (k : nat),
      Activity.this (Nat.iter k Activity.Activate a)
      = Nat.iter k (fun s => Activity._activate a (Activity.set_active true s))
                 (Activity.this a) /\
      Activity.this (Nat.iter k Activity.Deactivate a)
      = Nat.iter k (fun s => Activity._deactivate a (Activity.set_active false s))
                 (Activity.this a))
  /\
  (forall (m : Mode.t Self) (b : bool),
      Mode.Activate (Mode.with_this (Mode.set_active b (Mode.this m)) m)
      = Mode.with_this (Mode._activate m (Mode.set_active true (Mode.this m))) m
      /\
      Mode.Deactivate (Mode.with_this (Mode.set_active b (Mode.this m)) m)
      = Mode.with_this (Mode._deactivate m (Mode.set_active false (Mode.this m))) m)
  /\
  (forall (m : Mode.t Self) (k : nat),
      Mode.this (Nat.iter k Mode.Activate m)
      = Nat.iter k (fun s => Mode._activate m (Mode.set_active true s))
                 (Mode.this m) /\
      Mode.this (Nat.iter k Mode.Deactivate m)
      = Nat.iter k (fun s => Mode._deactivate m (Mode.set_active false s))
                 (Mode.this m)).
Proof.
  split_and!.
  - intros a b. done.
  - intros a k. by rewrite Activity_iter_Activate, Activity_iter_Deactivate.
  - intros m b. done.
  - intros m k. by rewrite Mode_iter_Activate, Mode_iter_Deactivate.
Qed.

End Lifecycle.

(** * Properties of the [ModeManager] *)

Section Arbitration.

Implicit Types (l : list (string * Z)) (o : option string) (h b : Z).

Lemma outbid_step o h (c : string * Z) :
  outbid (o, h) c = if (h <? c.2)%Z then (Some c.1, c.2) else (o, h).
Proof. done. Qed.

Lemma outbid_below l o h :
  Forall (fun c => (c.2 <= h)%Z) l -> foldl outbid (o, h) l = (o, h).
Proof.
  induction 1 as [|c l Hc _ IH]; cbn [foldl]; [done|].
  rewrite outbid_step. destruct (Z.ltb_spec h c.2); [lia|done].
Qed.

Lemma outbid_stays_below l o h b :
  (h < b)%Z -> Forall (fun c => (c.2 < b)%Z) l ->
  ((foldl outbid (o, h) l).2 < b)%Z.
Proof.
  intros Hh H. revert o h Hh. induction H as [|c l Hc _ IH]; intros o h Hh;
    cbn [foldl]; [done|].
  rewrite outbid_step. destruct (Z.ltb_spec h c.2); by apply IH.
Qed.

Lemma outbid_winner l1 n b l2 o h :
  (h < b)%Z -> Forall (fun c => (c.2 < b)%Z) l1 ->
  Forall (fun c => (c.2 <= b)%Z) l2 ->
  foldl outbid (o, h) (l1 ++ (n, b) :: l2) = (Some n, b).
Proof.
  intros Hh H1 H2. rewrite foldl_app. cbn [foldl].
  pose proof (outbid_stays_below o Hh H1) as Hlt.
  destruct (foldl outbid (o, h) l1) as [o' h']. simpl in Hlt.
  rewrite outbid_step. cbn [fst snd].
  destruct (Z.ltb_spec h' b); [|lia]. by apply outbid_below.
Qed.

(** The loop either never moves, every bid being at most the starting
    level, or ends on the first of the highest bids. *)
Lemma outbid_cases l o h :
  (foldl outbid (o, h) l = (o, h) /\ Forall (fun c => (c.2 <= h)%Z) l) \/
  (exists l1 n b l2,
      l = l1 ++ (n, b) :: l2 /\ foldl outbid (o, h) l = (Some n, b) /\
      (h < b)%Z /\ Forall (fun c => (c.2 < b)%Z) l1 /\
      Forall (fun c => (c.2 <= b)%Z) l2).
Proof.
  revert o h. induction l as [|c l IH]; intros o h; cbn [foldl].
  - left. by split.
  - rewrite outbid_step. destruct (Z.ltb_spec h c.2) as [Hlt|Hge].
    + right. destruct (IH (Some c.1) c.2)
        as [[Hr Hall]|(l1 & n & b & l2 & -> & Hr & Hb & H1 & H2)].
      * exists [], c.1, c.2, l. destruct c as [cn cb]. simpl in *.
        split_and!; try done.
      * exists (c :: l1), n, b, l2. split_and!; try done; [lia|].
        constructor; [lia|done].
    + destruct (IH o h)
        as [[Hr Hall]|(l1 & n & b & l2 & -> & Hr & Hb & H1 & H2)].
      * left. split; [done|]. by constructor.
      * right. exists (c :: l1), n, b, l2. split_and!; try done.
        constructor; [lia|done].
Qed.

Lemma arbitrate_Some l n :
  arbitrate l = Some n <->
  exists l1 b l2, l = l1 ++ (n, b) :: l2 /\ (0 <= b)%Z /\
                  Forall (fun c => (c.2 < b)%Z) l1 /\
                  Forall (fun c => (c.2 <= b)%Z) l2.
Proof.
  unfold arbitrate. split.
  - intros H. destruct (outbid_cases l None (-1))
      as [[Hr _]|(l1 & n' & b & l2 & -> & Hr & Hb & H1 & H2)].
    + rewrite Hr in H. done.
    + rewrite Hr in H. simpl in H. injection H as ->.
      exists l1, b, l2. split_and!; try done. lia.
  - intros (l1 & b & l2 & -> & Hb & H1 & H2).
    rewrite outbid_winner; try done. lia.
Qed.

Lemma arbitrate_None l :
  arbitrate l = None <-> Forall (fun c => (c.2 < 0)%Z) l.
Proof.
  unfold arbitrate. split.
  - intros H. destruct (outbid_cases l None (-1))
      as [[_ Hall]|(l1 & n' & b & l2 & -> & Hr & _)].
    + eapply Forall_impl; [exact Hall|]. simpl. intros. lia.
    + rewrite Hr in H. done.
  - intros Hall. rewrite outbid_below; [done|].
    eapply Forall_impl; [exact Hall|]. simpl. intros. lia.
Qed.

End Arbitration.

Section Hovering.
Context {Self World : Type}.
Implicit Types (m : ModeManager Self World) (vi : View.LabViewInteraction).

Lemma elem_of_bids slot vi m n b :
  (n, b) ∈ bids slot vi m <->
  n ∈ activity_names m /\
  exists a, activities m !! n = Some a /\ Activity.IsActive a = true /\
            b = bid_of (slot (Activity.activity (Activity.this a)))
                       (Activity.fields (Activity.this a)) vi.
Proof.
  unfold bids. rewrite list_elem_of_omap. split.
  - intros (n' & Hn & H). destruct (activities m !! n') as [a|] eqn:Ha;
      simpl in H; [|done].
    destruct (Activity.IsActive a) eqn:Hact; [|done].
    injection H as <- <-. eauto 6.
  - intros (Hn & a & Ha & Hact & ->). exists n. split; [done|].
    rewrite Ha. simpl. by rewrite Hact.
Qed.

Lemma bids_in_registration_order slot vi m :
  sublist (bids slot vi m).*1 (activity_names m).
Proof.
  unfold bids. induction (activity_names m) as [|n l IH]; simpl; [done|].
  destruct (activities m !! n) as [a|]; simpl;
    [destruct (Activity.IsActive a); simpl|]; by constructor.
Qed.

(** C3. [RunViewportHovering] asks every active activity for its
    [ViewportHoverBid], in registration order, and calls
    [ViewportHovering] on the winner alone: the first activity in that order
    whose bid is non-negative and is the highest. A negative bid never wins,
    and when every bid is negative, or there is none, no call is made. *)
Theorem hover_goes_to_first_highest_bidder vi m :
  let B := bids ViewportHoverBid vi m in
  calls (RunViewportHovering vi m) =
    calls m ++ match arbitrate B with
               | Some n => [CallViewportHovering n]
               | None => []
               end /\
  activities (RunViewportHovering vi m) =
    match arbitrate B with
    | Some n => alter (run_handler ViewportHovering vi) n (activities m)
    | None => activities m
    end /\
  (forall n, arbitrate B = Some n <->
     exists l1 b l2, B = l1 ++ (n, b) :: l2 /\ (0 <= b)%Z /\
                     Forall (fun c => (c.2 < b)%Z) l1 /\
                     Forall (fun c => (c.2 <= b)%Z) l2) /\
  (arbitrate B = None <-> Forall (fun c => (c.2 < 0)%Z) B) /\
  (forall n b, (n, b) ∈ B <->
     n ∈ activity_names m /\
     exists a, activities m !! n = Some a /\ Activity.IsActive a = true /\
               b = bid_of (ViewportHoverBid (Activity.activity (Activity.this a)))
                          (Activity.fields (Activity.this a)) vi) /\
  sublist B.*1 (activity_names m).
Proof.
  intros B. split_and!.
  - unfold RunViewportHovering. fold B. destruct (arbitrate B); simpl; [done|].
    by rewrite app_nil_r.
  - unfold RunViewportHovering. fold B. by destruct (arbitrate B).
  - intros n. apply arbitrate_Some.
  - apply arbitrate_None.
  - intros n b. apply elem_of_bids.
  - apply bids_in_registration_order.
Qed.

End Hovering.

Section Dragging.
Context {Self World : Type}.
Implicit Types (m : ModeManager Self World) (f : Frame Self).
Implicit Types (fs : list (Frame Self)).

Lemma deliveries_S (o : option string) (k : nat) :
  deliveries o (S k) = deliveries o 1 ++ deliveries o k.
Proof. by destruct o. Qed.

(** A frame that does not start a gesture goes to the owner, if any. *)
Lemma drag_frame_no_start m f :
  View.start (frame_vi f) = false ->
  calls (drag_frame m f) = calls m ++ deliveries (dragging m) 1 /\
  dragging (drag_frame m f) =
    if View.end_ (frame_vi f) then None else dragging m.
Proof.
  intros Hs. unfold drag_frame, RunViewportDragging. rewrite Hs. simpl.
  destruct (dragging m) as [n|] eqn:Hd; destruct (View.end_ (frame_vi f));
    simpl; rewrite ?app_nil_r; by split.
Qed.

(** A frame that starts a gesture picks its owner afresh. *)
Lemma drag_frame_start m f :
  View.start (frame_vi f) = true ->
  let w := arbitrate (bids ViewportDragBid (frame_vi f) (rebid (frame_bids f) m)) in
  calls (drag_frame m f) = calls m ++ deliveries w 1 /\
  dragging (drag_frame m f) = if View.end_ (frame_vi f) then None else w.
Proof.
  intros Hs w. unfold drag_frame, RunViewportDragging. rewrite Hs. simpl.
  fold w. destruct w as [n|] eqn:Hw; destruct (View.end_ (frame_vi f));
    simpl; rewrite ?app_nil_r; by split.
Qed.

Lemma drag_frames_held fs m :
  Forall (fun f => View.start (frame_vi f) = false /\
                   View.end_ (frame_vi f) = false) fs ->
  calls (drag_frames fs m) = calls m ++ deliveries (dragging m) (length fs) /\
  dragging (drag_frames fs m) = dragging m.
Proof.
  intros H. revert m. induction H as [|f fs [Hs He] _ IH]; intros m.
  - unfold drag_frames. simpl. split; [|done].
    destruct (dragging m); simpl; by rewrite app_nil_r.
  - unfold drag_frames in *. cbn [foldl length].
    destruct (drag_frame_no_start m Hs) as [Hc Hd]. rewrite He in Hd.
    destruct (IH (drag_frame m f)) as [Hc' Hd'].
    rewrite Hc', Hd', Hc, Hd, (deliveries_S _ (length fs)), app_assoc.
    by split.
Qed.

(** C2. The activity chosen by [ViewportDragBid] arbitration on the frame
    with [start] is the only one whose [ViewportDragging] is called on that
    frame and on every later frame of the gesture, whatever bids the
    activities return on those frames; the frame with [end] is still
    delivered to it and then releases the gesture, after which nothing is
    called until a frame with [start] arbitrates again. *)
Theorem drag_owner_keeps_gesture :
  (forall m f0 fs,
      View.start (frame_vi f0) = true -> View.end_ (frame_vi f0) = false ->
      Forall (fun f => View.start (frame_vi f) = false /\
                       View.end_ (frame_vi f) = false) fs ->
      let w := arbitrate (bids ViewportDragBid (frame_vi f0)
                               (rebid (frame_bids f0) m)) in
      calls (drag_frames (f0 :: fs) m) = calls m ++ deliveries w (S (length fs)) /\
      dragging (drag_frames (f0 :: fs) m) = w)
  /\
  (forall m f,
      View.start (frame_vi f) = false -> View.end_ (frame_vi f) = true ->
      calls (drag_frame m f) = calls m ++ deliveries (dragging m) 1 /\
      dragging (drag_frame m f) = None)
  /\
  (forall m fs,
      dragging m = None ->
      Forall (fun f => View.start (frame_vi f) = false) fs ->
      calls (drag_frames fs m) = calls m /\ dragging (drag_frames fs m) = None)
  /\
  (forall m f,
      View.start (frame_vi f) = true ->
      let w := arbitrate (bids ViewportDragBid (frame_vi f)
                               (rebid (frame_bids f) m)) in
      calls (drag_frame m f) = calls m ++ deliveries w 1 /\
      dragging (drag_frame m f) = if View.end_ (frame_vi f) then None else w).
Proof.
  split_and!.
  - intros m f0 fs Hs He Hmid w.
    destruct (drag_frame_start m Hs) as [Hc Hd]. fold w in Hc, Hd.
    rewrite He in Hd.
    destruct (drag_frames_held (drag_frame m f0) Hmid) as [Hc' Hd'].
    unfold drag_frames in *. cbn [foldl].
    rewrite Hc', Hd', Hc, Hd, (deliveries_S _ (length fs)), app_assoc.
    by split.
  - intros m f Hs He. destruct (drag_frame_no_start m Hs) as [Hc Hd].
    by rewrite He in Hd.
  - intros m fs Hnone H. revert m Hnone.
    induction H as [|f fs Hs _ IH]; intros m Hnone; [done|].
    unfold drag_frames in *. cbn [foldl].
    destruct (drag_frame_no_start m Hs) as [Hc Hd].
    rewrite Hnone in Hc, Hd. simpl in Hc. rewrite app_nil_r in Hc.
    assert (dragging (drag_frame m f) = None) as Hd'
      by (by destruct (View.end_ (frame_vi f))).
    destruct (IH _ Hd') as [Hc2 Hd2]. rewrite Hc2, Hd2, Hc. by split.
  - intros m f Hs. by apply drag_frame_start.
Qed.

End Dragging.

Section Activation.
Context {Self World : Type}.
Implicit Types (m : ModeManager Self World) (n k : string).
Implicit Types (a : Activity.t Self).

Lemma elem_of_ActiveSet m k :
  k ∈ ActiveSet m <->
  exists a, activities m !! k = Some a /\ Activity.IsActive a = true.
Proof.
  unfold ActiveSet. rewrite elem_of_dom. split.
  - intros [a [Ha Hact]%map_lookup_filter_Some]. eauto.
  - intros (a & Ha & Hact). exists a. by apply map_lookup_filter_Some.
Qed.

Lemma ActiveSet_same_activities m m' :
  activities m' = activities m -> ActiveSet m' = ActiveSet m.
Proof. unfold ActiveSet. by intros ->. Qed.

(** What [FindActivity] finds is kept under the name it was asked for, and
    no other name is touched. *)
Lemma FindActivity_lookup m n k :
  activities (FindActivity n m).2 !! k =
    if decide (k = n)
    then match activities m !! n with
         | Some a => Some a
         | None => (fun fn => fn ()) <$> activity_factory m !! n
         end
    else activities m !! k.
Proof.
  unfold FindActivity.
  destruct (activities m !! n) as [a|] eqn:Ha; simpl.
  - case_decide; by subst.
  - destruct (activity_factory m !! n) as [fn|] eqn:Hf; simpl.
    + rewrite lookup_insert. repeat case_decide; by subst.
    + case_decide; by subst.
Qed.

Lemma FindActivity_live m n a :
  activities m !! n = Some a -> FindActivity n m = (Some a, m).
Proof. intros H. unfold FindActivity. by rewrite H. Qed.

Lemma ActivateActivity_found m n a :
  (FindActivity n m).1 = Some a ->
  activities (ActivateActivity n m) =
    <[n := Activity.Activate a]> (activities (FindActivity n m).2).
Proof.
  intros H. unfold ActivateActivity.
  destruct (FindActivity n m) as [o m1]. simpl in *. by subst.
Qed.

Lemma DeactivateActivity_live m n a :
  activities m !! n = Some a ->
  DeactivateActivity n m =
    _set_activities (with_activities (<[n := Activity.Deactivate a]>) m).
Proof. intros H. unfold DeactivateActivity. by rewrite (FindActivity_live H). Qed.

(** C8, from an inactive start and for hooks that act on their own object
    only. For a registered activity name that is not in the active set, and
    whose [_deactivate] hook leaves the flag as it found it,
    [ActivateActivity(name)] followed by [DeactivateActivity(name)] leaves
    the set of active activities as it was before; the cache that
    [_set_activities()] recomputes holds that set afterwards, so a cache
    that was in step with the flags before the two calls is the same after
    them. *)
Theorem activate_deactivate_roundtrip m n a :
  (FindActivity n m).1 = Some a ->
  n ∉ ActiveSet m ->
  (forall s, active (Activity.activity (Activity._deactivate a s))
             = active (Activity.activity s)) ->
  ActiveSet (DeactivateActivity n (ActivateActivity n m)) = ActiveSet m /\
  active_cache (DeactivateActivity n (ActivateActivity n m)) = ActiveSet m /\
  (active_cache m = ActiveSet m ->
   active_cache (DeactivateActivity n (ActivateActivity n m)) = active_cache m).
Proof.
  intros Hfind Hout Hkeep.
  pose proof (ActivateActivity_found Hfind) as HA.
  assert (activities (ActivateActivity n m) !! n = Some (Activity.Activate a))
    as Hlive by (rewrite HA; apply lookup_insert_eq).
  rewrite (DeactivateActivity_live Hlive).
  assert (ActiveSet (with_activities
                       (<[n := Activity.Deactivate (Activity.Activate a)]>)
                       (ActivateActivity n m)) = ActiveSet m) as Hset.
  { apply set_eq. intros k. rewrite !elem_of_ActiveSet. simpl. rewrite HA.
    destruct (decide (k = n)) as [->|Hne].
    - rewrite lookup_insert_eq. split.
      + intros (a' & [= <-] & Hact). exfalso.
        rewrite (Activity_Deactivate_keeps (a:=Activity.Activate a)) in Hact;
          done.
      + intros Hin. exfalso. apply Hout. by apply elem_of_ActiveSet.
    - rewrite !lookup_insert_ne by done.
      rewrite FindActivity_lookup, decide_False by done. done. }
  split; [|split; [exact Hset|]].
  - rewrite <-Hset. by apply ActiveSet_same_activities.
  - intros ->. exact Hset.
Qed.

(** *** Switching the major mode *)












End Activation.

Section Deferral.
Context {Self World : Type}.
Implicit Types (m : ModeManager Self World) (n : string).
Implicit Types (j : Journal World) (l : list addr).

(** After an [Append], [_curr] is the end of the journal. *)
Lemma Append_total (t : Transaction World) (w : World) j l :
  chain next j (Some (_curr j)) l ->
  exists j', Append t (w, j) = Some (exec t w, j') /\
             chain next j' (Some (_curr j')) [_curr j'].
Proof.
  intros H. inversion H as [|p n l' Hp Hc]; subst.
  pose proof (Append_chain t w H Hp) as HA. simpl in HA.
  eexists. split; [exact HA|]. simpl.
  pose proof (chain_NoDup H) as Hnd. apply NoDup_cons in Hnd as [Hcl _].
  set (a := fresh (dom (nodes j) ∖ list_to_set l')) in *.
  assert (a ≠ _curr j) as Hne.
  { intros Heq. apply (is_fresh (dom (nodes j) ∖ list_to_set l')). fold a.
    rewrite Heq. apply elem_of_difference.
    split; [apply elem_of_dom; eauto|]. by rewrite elem_of_list_to_set. }
  econstructor.
  - simpl. rewrite lookup_insert_ne by done. apply lookup_insert_eq.
  - simpl. constructor.
Qed.

(** Draining a queue into a journal whose future is finite succeeds. *)
Lemma Appends_total (ts : list (Transaction World)) (w : World) j l :
  chain next j (Some (_curr j)) l ->
  exists j', Appends ts (w, j) = Some (foldl (fun w t => exec t w) w ts, j').
Proof.
  revert w j l. induction ts as [|t ts IH]; intros w j l H; simpl.
  - by exists j.
  - destruct (Append_total t w H) as (j1 & -> & H1). simpl. eauto.
Qed.

Lemma FindMode_with_pending m n p :
  FindMode n (with_pending p m) = FindMode n m.
Proof. done. Qed.

Lemma ActivateMajorMode_found m n mode :
  FindMode n m = Some mode -> ActivateMajorMode n m = with_pending n m.
Proof. intros H. unfold ActivateMajorMode. by rewrite H. Qed.

Lemma ActivateMajorMode_missing m n :
  FindMode n m = None -> ActivateMajorMode n m = m.
Proof. intros H. unfold ActivateMajorMode. by rewrite H. Qed.

Lemma _activate_major_mode_current m n mode :
  FindMode n m = Some mode ->
  major_mode (_activate_major_mode n m) =
    Some (n, MajorMode.with_base (Mode.Activate (MajorMode.base mode)) mode).
Proof. intros H. unfold _activate_major_mode. by rewrite H. Qed.

Lemma activate_configured_queue m n :
  queue (activate_configured m n) = queue m.
Proof.
  unfold activate_configured, FindActivity.
  destruct (activities m !! n) as [a|]; simpl.
  - by destruct (Activity.IsActive a).
  - destruct (activity_factory m !! n) as [fn|]; simpl; [|done].
    by destruct (Activity.IsActive (fn ())).
Qed.

Lemma _activate_major_mode_queue m n :
  queue (_activate_major_mode n m) = queue m.
Proof.
  unfold _activate_major_mode. destruct (FindMode n m) as [mode|]; [|done].
  simpl. set (m0 := if MajorMode.MustDeactivateUnrelatedModesOnActivation mode
                    then _ else _).
  assert (queue m0 = queue m) as <-
    by (unfold m0; by destruct
          (MajorMode.MustDeactivateUnrelatedModesOnActivation mode)).
  clearbody m0. revert m0.
  induction (MajorMode.ModeConfiguration mode) as [|x cfg IH]; intros m0;
    simpl; [done|].
  by rewrite IH, activate_configured_queue.
Qed.

(** The tick that follows a request for a registered major mode. *)
Lemma Update_after_request m n mode l :
  FindMode n m = Some mode ->
  chain next (_journal m) (Some (_curr (_journal m))) l ->
  exists j' m',
    Appends (queue m) (world m, _journal m) =
      Some (foldl (fun w t => exec t w) (world m) (queue m), j') /\
    UpdateTransactionQueueActivationAndModes (with_pending n m) = Some m' /\
    m' = with_pending ""
           (_activate_major_mode n
              (with_drained (foldl (fun w t => exec t w) (world m) (queue m), j')
                            (with_pending n m))) /\
    major_mode m' =
      Some (n, MajorMode.with_base (Mode.Activate (MajorMode.base mode)) mode) /\
    _major_mode_pending m' = "" /\ queue m' = [].
Proof.
  intros Hfind Hch.
  destruct (Appends_total (queue m) (world m) Hch) as (j' & HA).
  eexists j', _. split; [exact HA|].
  unfold UpdateTransactionQueueActivationAndModes. simpl. rewrite HA. simpl.
  split; [reflexivity|]. split; [reflexivity|]. simpl.
  split; [by apply _activate_major_mode_current|]. split; [done|].
  by rewrite _activate_major_mode_queue.
Qed.

(** C5. [ActivateMajorMode(name)] activates nothing itself. For a name in
    the registry it changes the pending slot and nothing else, and the
    switch is applied by the next
    [UpdateTransactionQueueActivationAndModes], once the queue is drained,
    which also clears the slot. For a name that is not found the manager is
    left exactly as it was. *)
Theorem major_mode_switch_is_deferred :
  (forall m n mode,
      FindMode n m = Some mode -> ActivateMajorMode n m = with_pending n m) /\
  (forall m n, FindMode n m = None -> ActivateMajorMode n m = m) /\
  (forall m n,
      CurrentMajorMode (ActivateMajorMode n m) = CurrentMajorMode m /\
      major_mode (ActivateMajorMode n m) = major_mode m /\
      activities (ActivateMajorMode n m) = activities m /\
      active_cache (ActivateMajorMode n m) = active_cache m /\
      dragging (ActivateMajorMode n m) = dragging m /\
      queue (ActivateMajorMode n m) = queue m /\
      _journal (ActivateMajorMode n m) = _journal m /\
      world (ActivateMajorMode n m) = world m /\
      calls (ActivateMajorMode n m) = calls m) /\
  (forall m n mode l,
      FindMode n m = Some mode ->
      chain next (_journal m) (Some (_curr (_journal m))) l ->
      exists j' m',
        Appends (queue m) (world m, _journal m) =
          Some (foldl (fun w t => exec t w) (world m) (queue m), j') /\
        UpdateTransactionQueueActivationAndModes (ActivateMajorMode n m)
          = Some m' /\
        m' = with_pending ""
               (_activate_major_mode n
                  (with_drained
                     (foldl (fun w t => exec t w) (world m) (queue m), j')
                     (with_pending n m))) /\
        major_mode m' =
          Some (n, MajorMode.with_base (Mode.Activate (MajorMode.base mode)) mode) /\
        _major_mode_pending m' = "" /\ queue m' = []).
Proof.
  split_and!.
  - intros m n mode. apply ActivateMajorMode_found.
  - intros m n. apply ActivateMajorMode_missing.
  - intros m n. unfold ActivateMajorMode. by destruct (FindMode n m).
  - intros m n mode l Hfind Hch. rewrite (ActivateMajorMode_found Hfind).
    by eapply Update_after_request.
Qed.

Lemma requests_overwrite m (ns : list string) n :
  Forall (fun x => is_Some (FindMode x m)) (ns ++ [n]) ->
  foldl (fun m x => ActivateMajorMode x m) m (ns ++ [n]) = with_pending n m.
Proof.
  revert m. induction ns as [|x ns IH]; intros m H; simpl in *.
  - apply Forall_cons in H as [[mode Hn] _].
    by rewrite (ActivateMajorMode_found Hn).
  - apply Forall_cons in H as [[mode Hx] H].
    rewrite (ActivateMajorMode_found Hx). rewrite IH; [done|].
    eapply Forall_impl; [exact H|]. intros y Hy.
    by rewrite FindMode_with_pending.
Qed.

(** C9. The pending switch is one slot holding one name: each
    [ActivateMajorMode] with a registered name overwrites what was there,
    so after any run of such calls the slot holds the last name, the next
    tick does exactly what it would have done had only the last call been
    made, and the major mode that becomes current is the last one named. *)
Theorem last_request_wins :
  (forall m n1 n2,
      is_Some (FindMode n1 m) -> is_Some (FindMode n2 m) ->
      ActivateMajorMode n2 (ActivateMajorMode n1 m) = ActivateMajorMode n2 m /\
      _major_mode_pending (ActivateMajorMode n2 (ActivateMajorMode n1 m)) = n2) /\
  (forall m (ns : list string) n,
      Forall (fun x => is_Some (FindMode x m)) (ns ++ [n]) ->
      foldl (fun m x => ActivateMajorMode x m) m (ns ++ [n])
        = ActivateMajorMode n m /\
      _major_mode_pending
        (foldl (fun m x => ActivateMajorMode x m) m (ns ++ [n])) = n) /\
  (forall m (ns : list string) n mode l,
      Forall (fun x => is_Some (FindMode x m)) ns ->
      FindMode n m = Some mode ->
      chain next (_journal m) (Some (_curr (_journal m))) l ->
      exists m',
        UpdateTransactionQueueActivationAndModes
          (foldl (fun m x => ActivateMajorMode x m) m (ns ++ [n])) = Some m' /\
        UpdateTransactionQueueActivationAndModes (ActivateMajorMode n m)
          = Some m' /\
        major_mode m' =
          Some (n, MajorMode.with_base (Mode.Activate (MajorMode.base mode)) mode) /\
        _major_mode_pending m' = "").
Proof.
  split_and!.
  - intros m n1 n2 [mode1 H1] [mode2 H2].
    rewrite (ActivateMajorMode_found H1).
    rewrite (ActivateMajorMode_found (m:=with_pending n1 m) (mode:=mode2))
      by done.
    by rewrite (ActivateMajorMode_found H2).
  - intros m ns n H. rewrite (requests_overwrite H).
    apply Forall_app in H as [_ [[mode Hn] _]%Forall_cons].
    by rewrite (ActivateMajorMode_found Hn).
  - intros m ns n mode l Hns Hn Hch.
    rewrite requests_overwrite
      by (apply Forall_app; split; [done|]; constructor; eauto).
    rewrite (ActivateMajorMode_found Hn).
    destruct (Update_after_request Hn Hch)
      as (j' & m' & _ & HU & _ & Hcur & Hpend & _).
    exists m'. by split_and!.
Qed.

End Deferral.

(** * Further properties *)

Section NodeCount.
Context {World : Type}.
Implicit Types (j : Journal World) (l : list addr).

(** X1. The static count follows the store. A node that is constructed
    takes storage that was free, has neither a next node nor a sibling, and
    raises the count by one; destroying it straight away gives back the
    journal as it was. Destroying the head of
    a finite [next] chain removes exactly the nodes of the chain, touches no
    other node, and lowers the count by the length of the chain. *)
Theorem node_count_follows_store :
  (forall j,
      nodes j !! (JournalNode_new j).1 = None /\
      (exists nd, nodes (JournalNode_new j).2 !! (JournalNode_new j).1 = Some nd /\
                  next nd = None /\ sibling nd = None) /\
      size (nodes (JournalNode_new j).2) = S (size (nodes j)) /\
      count (JournalNode_new j).2 = (count j + 1)%Z /\
      delete_node 1 (JournalNode_new j).1 (JournalNode_new j).2 = Some j)
  /\
  (forall j p l fuel,
      chain next j (Some p) l -> length l <= fuel ->
      exists j',
        delete_node fuel p j = Some j' /\
        dom (nodes j') = dom (nodes j) ∖ list_to_set l /\
        (forall q, q ∉ l -> nodes j' !! q = nodes j !! q) /\
        size (nodes j) = size (nodes j') + length l /\
        count j = (count j' + Z.of_nat (length l))%Z /\
        _curr j' = _curr j).
Proof.
  split.
  - intros j. simpl.
    assert (nodes j !! fresh (dom (nodes j)) = None) as Hf
      by (apply not_elem_of_dom, is_fresh).
    split_and!.
    + done.
    + eexists. split; [apply lookup_insert_eq|done].
    + by apply map_size_insert_None.
    + done.
    + rewrite lookup_insert_eq. simpl. rewrite delete_insert_id by done.
      destruct j as [m k c]. simpl. do 2 f_equal. lia.
  - intros j p l fuel H Hlen. rewrite (delete_node_chain H Hlen).
    eexists. split; [done|]. simpl.
    pose proof (chain_NoDup H) as Hnd.
    split_and!.
    + apply dom_foldr_delete.
    + intros q Hq. by apply lookup_foldr_delete_notin.
    + rewrite <-!size_dom, dom_foldr_delete.
      rewrite size_difference.
      * rewrite size_list_to_set by done.
        pose proof (chain_length H) as Hle. rewrite <-size_dom in Hle. lia.
      * intros a Ha%elem_of_list_to_set. apply elem_of_dom.
        eauto using chain_allocated.
    + lia.
    + done.
Qed.

End NodeCount.

Section CallRuns.
Context {Self : Type}.

Lemma Activity_calls_hooks (bs : list bool) (a : Activity.t Self) :
  Activity._activate (Activity_calls bs a) = Activity._activate a /\
  Activity._deactivate (Activity_calls bs a) = Activity._deactivate a.
Proof.
  revert a. induction bs as [|b bs IH]; intros a; [done|].
  unfold Activity_calls in *. cbn [foldl].
  destruct (IH (if b then Activity.Activate a else Activity.Deactivate a))
    as [-> ->]. by destruct b.
Qed.

Lemma Mode_calls_hooks (bs : list bool) (m : Mode.t Self) :
  Mode._activate (Mode_calls bs m) = Mode._activate m /\
  Mode._deactivate (Mode_calls bs m) = Mode._deactivate m.
Proof.
  revert m. induction bs as [|b bs IH]; intros m; [done|].
  unfold Mode_calls in *. cbn [foldl].
  destruct (IH (if b then Mode.Activate m else Mode.Deactivate m))
    as [-> ->]. by destruct b.
Qed.

(** X2. Any run of [Activate()] and [Deactivate()] calls on one object runs
    one hook per call, in order, each on the object with the flag of that
    call; when the hooks leave the flag alone, [IsActive()] after the run is
    what the last call set, whatever came before. For [Activity] and for
    [Mode]. *)
Theorem last_call_decides :
  (forall (a : Activity.t Self) (bs : list bool),
      Activity.this (Activity_calls bs a) =
        foldl (fun s b => (if b : bool then Activity._activate a
                           else Activity._deactivate a)
                            (Activity.set_active b s))
              (Activity.this a) bs)
  /\
  (forall (a : Activity.t Self) (bs : list bool) (b : bool),
      Activity.keeps_flag a ->
      Activity.IsActive (Activity_calls (bs ++ [b]) a) = b)
  /\
  (forall (m : Mode.t Self) (bs : list bool),
      Mode.this (Mode_calls bs m) =
        foldl (fun s b => (if b : bool then Mode._activate m
                           else Mode._deactivate m)
                            (Mode.set_active b s))
              (Mode.this m) bs)
  /\
  (forall (m : Mode.t Self) (bs : list bool) (b : bool),
      (forall s, Mode._active (Mode._activate m s) = Mode._active s) ->
      (forall s, Mode._active (Mode._deactivate m s) = Mode._active s) ->
      Mode.IsActive (Mode_calls (bs ++ [b]) m) = b).
Proof.
  split_and!.
  - intros a bs. revert a. induction bs as [|b bs IH]; intros a; [done|].
    unfold Activity_calls in *. cbn [foldl]. rewrite IH. by destruct b.
  - intros a bs b [Hk1 Hk2]. unfold Activity_calls. rewrite foldl_app.
    cbn [foldl]. fold (Activity_calls bs a).
    destruct (Activity_calls_hooks bs a) as [H1 H2].
    destruct b.
    + apply Activity_Activate_keeps. intros s. by rewrite H1.
    + apply Activity_Deactivate_keeps. intros s. by rewrite H2.
  - intros m bs. revert m. induction bs as [|b bs IH]; intros m; [done|].
    unfold Mode_calls in *. cbn [foldl]. rewrite IH. by destruct b.
  - intros m bs b Hk1 Hk2. unfold Mode_calls. rewrite foldl_app.
    cbn [foldl]. fold (Mode_calls bs m).
    destruct (Mode_calls_hooks bs m) as [H1 H2].
    unfold Mode.IsActive. destruct b; simpl.
    + by rewrite H1, Hk1.
    + by rewrite H2, Hk2.
Qed.

End CallRuns.

Section ActivityCalls.
Context {Self World : Type}.
Implicit Types (m : ModeManager Self World) (n k : string).
Implicit Types (a : Activity.t Self) (f g : Activity.t Self -> Activity.t Self).

Lemma ActivateActivity_on n m :
  ActivateActivity n m = on_activity Activity.Activate n m.
Proof. done. Qed.

Lemma DeactivateActivity_on n m :
  DeactivateActivity n m = on_activity Activity.Deactivate n m.
Proof. done. Qed.

(** The instance built on first use is overwritten at once by the one the
    entry point returns. *)
Lemma on_activity_eq f n m :
  on_activity f n m =
    match (FindActivity n m).1 with
    | Some a => _set_activities (with_activities (<[n := f a]>) m)
    | None => m
    end.
Proof.
  unfold on_activity, FindActivity.
  destruct (activities m !! n) as [a|]; simpl; [done|].
  destruct (activity_factory m !! n) as [fn|]; simpl; [|done].
  unfold _set_activities, with_active_cache, with_activities, ActiveSet. simpl.
  by rewrite insert_insert_eq.
Qed.

Lemma on_activity_lookup f n m k :
  activities (on_activity f n m) !! k =
    if decide (k = n) then f <$> (FindActivity n m).1 else activities m !! k.
Proof.
  rewrite on_activity_eq. destruct (FindActivity n m).1 as [a|] eqn:Hf; simpl.
  - rewrite lookup_insert. repeat case_decide; by subst.
  - case_decide as Hk; [|done]. subst k. unfold FindActivity in Hf.
    destruct (activities m !! n); [done|].
    by destruct (activity_factory m !! n).
Qed.

Lemma FindActivity_1 n m :
  (FindActivity n m).1 =
    match activities m !! n with
    | Some a => Some a
    | None => (fun fn => fn ()) <$> activity_factory m !! n
    end.
Proof.
  unfold FindActivity. destruct (activities m !! n); [done|].
  by destruct (activity_factory m !! n).
Qed.

Lemma FindActivity_other f n m k :
  k ≠ n -> (FindActivity k (on_activity f n m)).1 = (FindActivity k m).1.
Proof.
  intros Hne.
  assert (activities (on_activity f n m) !! k = activities m !! k) as Hl
    by (by rewrite on_activity_lookup, decide_False).
  assert (activity_factory (on_activity f n m) = activity_factory m) as Hfac.
  { rewrite on_activity_eq. by destruct (FindActivity n m).1. }
  by rewrite !FindActivity_1, Hl, Hfac.
Qed.

Lemma on_activity_commute f g n k m :
  n ≠ k -> on_activity f n (on_activity g k m) = on_activity g k (on_activity f n m).
Proof.
  intros Hne.
  rewrite (on_activity_eq f n (on_activity g k m)), FindActivity_other by done.
  rewrite (on_activity_eq g k (on_activity f n m)), FindActivity_other by done.
  rewrite (on_activity_eq g k m), (on_activity_eq f n m).
  destruct (FindActivity n m).1 as [a|]; destruct (FindActivity k m).1 as [b|];
    try done.
  unfold _set_activities, with_active_cache, with_activities, ActiveSet. simpl.
  by rewrite (insert_insert_ne (activities m) n k).
Qed.

(** X3. For a name that is found and whose hook acts on its own object
    only and leaves the flag as the entry point set it, [ActivateActivity]
    adds the name to the set of active activities and [DeactivateActivity]
    removes it; no other name enters or leaves the set. *)
Theorem active_set_after_call n m a :
  (FindActivity n m).1 = Some a ->
  ((forall s, active (Activity.activity (Activity._activate a s))
              = active (Activity.activity s)) ->
   ActiveSet (ActivateActivity n m) = ActiveSet m ∪ {[n]}) /\
  ((forall s, active (Activity.activity (Activity._deactivate a s))
              = active (Activity.activity s)) ->
   ActiveSet (DeactivateActivity n m) = ActiveSet m ∖ {[n]}).
Proof.
  intros Hf. rewrite ActivateActivity_on, DeactivateActivity_on. split.
  - intros Hk. apply set_eq. intros k.
    rewrite elem_of_union, elem_of_singleton, !elem_of_ActiveSet.
    setoid_rewrite on_activity_lookup. rewrite Hf. simpl.
    destruct (decide (k = n)) as [->|Hne].
    + split; [by right|]. intros _. eexists. split; [done|].
      by apply Activity_Activate_keeps.
    + split; [by left|]. by intros [?|?].
  - intros Hk. apply set_eq. intros k.
    rewrite elem_of_difference, elem_of_singleton, !elem_of_ActiveSet.
    setoid_rewrite on_activity_lookup. rewrite Hf. simpl.
    destruct (decide (k = n)) as [->|Hne].
    + split; [|by intros [_ ?]]. intros (b & [= <-] & Hact).
      rewrite Activity_Deactivate_keeps in Hact; done.
    + split; [by split|]. by intros [? _].
Qed.

(** X4. [ActivateActivity] and [DeactivateActivity] touch one name: every
    other live instance, both registries, the current and the pending major
    mode, the drag owner, the queue, the journal and the callbacks made are
    as before; and on a name that is neither live nor registered the call
    does nothing at all. *)
Theorem activity_call_touches_one_name n m :
  (forall k, k ≠ n ->
     activities (ActivateActivity n m) !! k = activities m !! k /\
     activities (DeactivateActivity n m) !! k = activities m !! k) /\
  (activity_factory (ActivateActivity n m) = activity_factory m /\
   activity_names (ActivateActivity n m) = activity_names m /\
   major_mode_factory (ActivateActivity n m) = major_mode_factory m /\
   major_mode (ActivateActivity n m) = major_mode m /\
   _major_mode_pending (ActivateActivity n m) = _major_mode_pending m /\
   dragging (ActivateActivity n m) = dragging m /\
   queue (ActivateActivity n m) = queue m /\
   _journal (ActivateActivity n m) = _journal m /\
   calls (ActivateActivity n m) = calls m) /\
  (activity_factory (DeactivateActivity n m) = activity_factory m /\
   activity_names (DeactivateActivity n m) = activity_names m /\
   major_mode_factory (DeactivateActivity n m) = major_mode_factory m /\
   major_mode (DeactivateActivity n m) = major_mode m /\
   _major_mode_pending (DeactivateActivity n m) = _major_mode_pending m /\
   dragging (DeactivateActivity n m) = dragging m /\
   queue (DeactivateActivity n m) = queue m /\
   _journal (DeactivateActivity n m) = _journal m /\
   calls (DeactivateActivity n m) = calls m) /\
  (activities m !! n = None -> activity_factory m !! n = None ->
     ActivateActivity n m = m /\ DeactivateActivity n m = m).
Proof.
  rewrite ActivateActivity_on, DeactivateActivity_on.
  split; [|split; [|split]].
  - intros k Hne. by rewrite !on_activity_lookup, !decide_False by done.
  - rewrite on_activity_eq. by destruct (FindActivity n m).1.
  - rewrite on_activity_eq. by destruct (FindActivity n m).1.
  - intros Ha Hfac. unfold on_activity, FindActivity. by rewrite Ha, Hfac.
Qed.

(** X5. Calls on two different names can be made in either order:
    activating or deactivating one activity and then another leaves the
    manager exactly as the other order does. *)
Theorem activity_calls_commute n k m :
  n ≠ k ->
  ActivateActivity n (ActivateActivity k m)
    = ActivateActivity k (ActivateActivity n m) /\
  DeactivateActivity n (DeactivateActivity k m)
    = DeactivateActivity k (DeactivateActivity n m) /\
  ActivateActivity n (DeactivateActivity k m)
    = DeactivateActivity k (ActivateActivity n m).
Proof.
  intros Hne. rewrite !ActivateActivity_on, !DeactivateActivity_on.
  split_and!; by apply on_activity_commute.
Qed.

Lemma FindActivity_with_pending n p m :
  (FindActivity n (with_pending p m)).1 = (FindActivity n m).1.
Proof.
  unfold FindActivity. simpl. destruct (activities m !! n); [done|].
  by destruct (activity_factory m !! n).
Qed.

Lemma on_activity_with_pending f n p m :
  on_activity f n (with_pending p m) = with_pending p (on_activity f n m).
Proof.
  rewrite !on_activity_eq, FindActivity_with_pending.
  by destruct (FindActivity n m).1.
Qed.

Lemma FindMode_on_activity f n k m :
  FindMode k (on_activity f n m) = FindMode k m.
Proof.
  rewrite on_activity_eq. by destruct (FindActivity n m).1.
Qed.

(** X6. A request for a major mode and a call on an activity do not see
    each other: [ActivateMajorMode] before or after [ActivateActivity] or
    [DeactivateActivity] gives the same manager. Asking twice for the same
    major mode is the same as asking once. *)
Theorem request_commutes_with_activity_calls n k m :
  ActivateMajorMode k (ActivateActivity n m)
    = ActivateActivity n (ActivateMajorMode k m) /\
  ActivateMajorMode k (DeactivateActivity n m)
    = DeactivateActivity n (ActivateMajorMode k m) /\
  ActivateMajorMode k (ActivateMajorMode k m) = ActivateMajorMode k m.
Proof.
  rewrite !ActivateActivity_on, !DeactivateActivity_on.
  unfold ActivateMajorMode. rewrite !FindMode_on_activity.
  destruct (FindMode k m) as [mode|] eqn:Hk.
  - rewrite !on_activity_with_pending, FindMode_with_pending, Hk. done.
  - by rewrite Hk.
Qed.

End ActivityCalls.

Section TemplateProperties.
Context {Self World : Type}.
Implicit Types (m : ModeManager Self World) (h : option string).
Implicit Types (T : ClassOf (Activity.t Self)).

Lemma FindActivity_keeps_found n m a :
  (FindActivity n m).1 = Some a ->
  activities (FindActivity n m).2 !! n = Some a /\
  FindActivity n (FindActivity n m).2 = (Some a, (FindActivity n m).2).
Proof.
  intros Hf.
  assert (activities (FindActivity n m).2 !! n = Some a) as Hl.
  { rewrite FindActivity_lookup, decide_True by done.
    by rewrite FindActivity_1 in Hf. }
  split; [done|]. by apply FindActivity_live.
Qed.

Lemma FindActivity_missing n m :
  (FindActivity n m).1 = None -> FindActivity n m = (None, m).
Proof.
  unfold FindActivity. destruct (activities m !! n); [done|].
  by destruct (activity_factory m !! n).
Qed.

Lemma LockActivity_live T h m r :
  lock h m = Some r -> LockActivity T h m = (Some r, h, m).
Proof. intros Hl. unfold LockActivity. by rewrite Hl. Qed.

Lemma LockActivity_missing T h m :
  lock h m = None -> (FindActivity (sname T) m).1 = None ->
  LockActivity T h m = (None, h, m).
Proof.
  intros Hl Hf. unfold LockActivity. by rewrite Hl, (FindActivity_missing Hf).
Qed.

Lemma LockActivity_found T h m a :
  lock h m = None -> (FindActivity (sname T) m).1 = Some a ->
  is_a T a = true ->
  LockActivity T h m = (Some a, Some (sname T), (FindActivity (sname T) m).2).
Proof.
  intros Hl Hf Ha. destruct (FindActivity_keeps_found Hf) as [Hlive _].
  unfold LockActivity. rewrite Hl.
  destruct (FindActivity (sname T) m) as [o m1]. simpl in *. subst o.
  unfold dynamic_pointer_cast. simpl. rewrite Ha. simpl.
  rewrite Hlive. simpl. by rewrite Ha.
Qed.

Lemma LockActivity_other_type T h m a :
  lock h m = None -> (FindActivity (sname T) m).1 = Some a ->
  is_a T a = false ->
  LockActivity T h m = (None, None, (FindActivity (sname T) m).2).
Proof.
  intros Hl Hf Ha. unfold LockActivity. rewrite Hl.
  destruct (FindActivity (sname T) m) as [o m1]. simpl in *. subst o.
  unfold dynamic_pointer_cast. simpl. by rewrite Ha.
Qed.

(** X7. What [LockActivity<T>] returns and leaves behind. A handle that
    still locks is returned as it is: the registry is not consulted and
    nothing is built. With a handle that does not lock, a name that is not
    found gives null and changes nothing; a found instance that is a [T] is
    returned, is live, and the handle now names it; a found instance that is
    not a [T] gives null and an empty handle, although the instance has been
    built and stays live. *)
Theorem LockActivity_cases T h m :
  (forall r, lock h m = Some r -> LockActivity T h m = (Some r, h, m)) /\
  (lock h m = None -> (FindActivity (sname T) m).1 = None ->
     LockActivity T h m = (None, h, m)) /\
  (forall a, lock h m = None -> (FindActivity (sname T) m).1 = Some a ->
     is_a T a = true ->
     LockActivity T h m = (Some a, Some (sname T), (FindActivity (sname T) m).2) /\
     activities (FindActivity (sname T) m).2 !! sname T = Some a) /\
  (forall a, lock h m = None -> (FindActivity (sname T) m).1 = Some a ->
     is_a T a = false ->
     LockActivity T h m = (None, None, (FindActivity (sname T) m).2) /\
     activities (FindActivity (sname T) m).2 !! sname T = Some a).
Proof.
  split_and!.
  - intros r. apply LockActivity_live.
  - apply LockActivity_missing.
  - intros a Hl Hf Ha. split; [by apply (LockActivity_found Hl Hf)|].
    by destruct (FindActivity_keeps_found Hf).
  - intros a Hl Hf Ha. split; [by apply (LockActivity_other_type Hl Hf)|].
    by destruct (FindActivity_keeps_found Hf).
Qed.

(** X8. [LockActivity<T>] settles in one call: called again with the handle
    and the manager it left, it returns the same result and changes
    neither. *)
Theorem LockActivity_settles T h m :
  LockActivity T (LockActivity T h m).1.2 (LockActivity T h m).2
    = LockActivity T h m.
Proof.
  destruct (lock h m) as [r|] eqn:Hl.
  - rewrite (LockActivity_live T Hl). simpl. by apply LockActivity_live.
  - destruct (FindActivity (sname T) m).1 as [a|] eqn:Hf.
    + destruct (FindActivity_keeps_found Hf) as [Hlive Hagain].
      destruct (is_a T a) eqn:Ha.
      * rewrite (LockActivity_found Hl Hf Ha). simpl.
        apply LockActivity_live. simpl. done.
      * rewrite (LockActivity_other_type Hl Hf Ha). simpl.
        rewrite (@LockActivity_other_type T None _ a);
          [by rewrite Hagain|done|by rewrite Hagain|done].
    + rewrite (LockActivity_missing Hl Hf). simpl.
      by apply LockActivity_missing.
Qed.

(** X9. The typed lookup [FindMode<T>()] never returns anything but a [T]
    found under [T::sname()], and empty otherwise. After
    [RegisterMajorMode<T>(fn)] the name is found and gives what [fn]
    builds, a later registration under the same name takes its place, the
    lookups under other names are as before, and [ActivateMajorMode] of the
    name is accepted. *)
Theorem registered_major_mode_is_found
    (T U : ClassOf (MajorMode.t Self)) (fn fn2 : unit -> MajorMode.t Self) m :
  (forall x, FindMode_as T m = Some x <->
             FindMode (sname T) m = Some x /\ is_a T x = true) /\
  FindMode (sname T) (RegisterMajorMode T fn m) = Some (fn ()) /\
  FindMode_as T (RegisterMajorMode T fn m)
    = (if is_a T (fn ()) then Some (fn ()) else None) /\
  FindMode (sname T) (RegisterMajorMode T fn2 (RegisterMajorMode T fn m))
    = Some (fn2 ()) /\
  (sname U ≠ sname T ->
     FindMode_as U (RegisterMajorMode T fn m) = FindMode_as U m) /\
  _major_mode_pending
    (ActivateMajorMode (sname T) (RegisterMajorMode T fn m)) = sname T.
Proof.
  assert (FindMode (sname T) (RegisterMajorMode T fn m) = Some (fn ())) as Hf.
  { unfold FindMode, RegisterMajorMode, _register_major_mode. simpl.
    by rewrite lookup_insert_eq. }
  split_and!.
  - intros x. unfold FindMode_as, dynamic_pointer_cast.
    destruct (FindMode (sname T) m) as [y|]; simpl.
    + destruct (is_a T y) eqn:Hy; split.
      * by intros [= <-].
      * by intros [[= <-] _].
      * done.
      * intros [[= <-] ?]. congruence.
    + split; [done|]. by intros [? _].
  - done.
  - unfold FindMode_as, dynamic_pointer_cast. by rewrite Hf.
  - unfold FindMode, RegisterMajorMode, _register_major_mode. simpl.
    by rewrite lookup_insert_eq.
  - intros Hne. unfold FindMode_as, FindMode, RegisterMajorMode,
      _register_major_mode. simpl. by rewrite lookup_insert_ne.
  - unfold ActivateMajorMode. by rewrite Hf.
Qed.

(** X10. After [RegisterActivity<T>(fn)], [LockActivity<T>] with an empty
    handle returns the instance held under the name when there is one, the
    new factory notwithstanding; when there is none it builds one with
    [fn], keeps it live, and returns it if it is a [T]. *)
Theorem registered_activity_is_locked T (fn : unit -> Activity.t Self) m :
  (forall a, activities m !! sname T = Some a -> is_a T a = true ->
     LockActivity T None (RegisterActivity T fn m)
       = (Some a, Some (sname T), RegisterActivity T fn m)) /\
  (activities m !! sname T = None -> is_a T (fn ()) = true ->
     LockActivity T None (RegisterActivity T fn m)
       = (Some (fn ()), Some (sname T),
          with_activities (<[sname T := fn ()]>) (RegisterActivity T fn m))) /\
  (activities m !! sname T = None ->
     activities (LockActivity T None (RegisterActivity T fn m)).2 !! sname T
       = Some (fn ())).
Proof.
  assert (activities m !! sname T = None ->
          FindActivity (sname T) (RegisterActivity T fn m)
          = (Some (fn ()),
             with_activities (<[sname T := fn ()]>) (RegisterActivity T fn m)))
    as Hbuilt.
  { intros Ha. unfold FindActivity, RegisterActivity, _register_activity.
    simpl. by rewrite Ha, lookup_insert_eq. }
  split_and!.
  - intros a Ha HT.
    assert (FindActivity (sname T) (RegisterActivity T fn m)
            = (Some a, RegisterActivity T fn m)) as Hf
      by (by apply FindActivity_live).
    rewrite (@LockActivity_found T None _ a); [by rewrite Hf|done| |done].
    by rewrite Hf.
  - intros Ha HT. specialize (Hbuilt Ha).
    rewrite (@LockActivity_found T None _ (fn ())); [|done| |done];
      by rewrite Hbuilt.
  - intros Ha. specialize (Hbuilt Ha).
    assert ((FindActivity (sname T) (RegisterActivity T fn m)).1
            = Some (fn ())) as Hf by (by rewrite Hbuilt).
    destruct (FindActivity_keeps_found Hf) as [Hlive _].
    destruct (is_a T (fn ())) eqn:HT.
    + by rewrite (@LockActivity_found T None _ (fn ())).
    + by rewrite (@LockActivity_other_type T None _ (fn ())).
Qed.

End TemplateProperties.

Section PluginTemplate.

Implicit Types (s : MyActivity.t) (out : list string) (p : Plugin).

Lemma update_lines_S (c : Z) (k : nat) :
  update_lines c (S k) =
    update_lines c k ++ ["Updated! " +:+ pretty (c + Z.of_nat (S k))%Z +:+ nl].
Proof. unfold update_lines. by rewrite seq_S, fmap_app. Qed.

(** X11. Through the table that [make_activity] returns, [k] calls of the
    [Update] slot raise [update_count] by [k], print one line per call with
    the running count, and leave the name, the plugin's own active flag and
    [render_count] alone, as long as the count stays a [usize]; the call
    that would take it past the maximum has no result, and the [Activate]
    and [Deactivate] slots change the plugin's flag and nothing else. *)
Theorem plugin_update_counts :
  Update make_activity = Some (as_slot MyActivity.Update) /\
  (forall s out (k : nat),
      (MyActivity.update_count s + Z.of_nat k <= usize_max)%Z ->
      Nat.iter k (as_slot MyActivity.Update) (Some (s, out)) =
        Some (MyActivity.mk (MyActivity.name s) (MyActivity.active s)
                (MyActivity.update_count s + Z.of_nat k)
                (MyActivity.render_count s),
              out ++ update_lines (MyActivity.update_count s) k)) /\
  (forall s out,
      (usize_max <= MyActivity.update_count s)%Z ->
      as_slot MyActivity.Update (Some (s, out)) = None) /\
  (forall s out f g,
      Activate make_activity = Some f -> Deactivate make_activity = Some g ->
      f (Some (s, out)) =
        Some (MyActivity.mk (MyActivity.name s) true
                (MyActivity.update_count s) (MyActivity.render_count s), out) /\
      g (Some (s, out)) =
        Some (MyActivity.mk (MyActivity.name s) false
                (MyActivity.update_count s) (MyActivity.render_count s), out)).
Proof.
  split_and!.
  - done.
  - intros s out k. induction k as [|k IH]; intros Hle.
    + simpl. rewrite Z.add_0_r, app_nil_r. by destruct s.
    + rewrite Nat.iter_succ, IH by lia. unfold as_slot at 1. simpl.
      unfold MyActivity.Update. simpl.
      destruct (Z.ltb_spec (MyActivity.update_count s + Z.of_nat k) usize_max)
        as [_|Hge]; [|lia].
      simpl. rewrite update_lines_S, <-app_assoc.
      replace (MyActivity.update_count s + Z.of_nat k + 1)%Z
        with (MyActivity.update_count s + Z.of_nat (S k))%Z by lia.
      done.
  - intros s out Hge. unfold as_slot, MyActivity.Update. simpl.
    destruct (Z.ltb_spec (MyActivity.update_count s) usize_max); [lia|done].
  - intros s out f g [= <-] [= <-]. unfold as_slot. simpl.
    by rewrite app_nil_r.
Qed.

Lemma plugin_run_cons c (cs : list SlotCall) p :
  plugin_run (c :: cs) p = plugin_run cs (plugin_run [c] p).
Proof. done. Qed.

Lemma plugin_run_one c s out :
  plugin_run [c] (Some (s, out)) =
    match c with
    | DoActivate => Some (MyActivity.Activate s, out)
    | DoDeactivate => Some (MyActivity.Deactivate s, out)
    | DoUpdate => '(s1, o) ← MyActivity.Update s; Some (s1, out ++ o)
    | DoRender vi => '(s1, o) ← MyActivity.Render s vi; Some (s1, out ++ o)
    | DoRunUI vi => Some (s, out ++ ["runui!" +:+ nl])
    end.
Proof.
  destruct c; unfold plugin_run; simpl; unfold as_slot; simpl;
    by rewrite ?app_nil_r.
Qed.

Lemma tally_cons f c (cs : list SlotCall) :
  tally f (c :: cs) = (if f c then 1 else 0) + tally f cs.
Proof. unfold tally. simpl. by destruct (f c). Qed.

Lemma flag_after_cons c (cs : list SlotCall) b :
  flag_after (c :: cs) b =
    flag_after cs match c with
                  | DoActivate => true
                  | DoDeactivate => false
                  | _ => b
                  end.
Proof. done. Qed.

(** X12. The two counters of the plugin count calls and nothing else:
    after any run of calls through the table, in any order, [update_count]
    has grown by the number of [Update] calls and [render_count] by the
    number of [Render] calls, as long as both stay a [usize]; one line has
    been printed per [Update], [Render] and [RunUI] call, after what was
    printed before; the name is the same, and the plugin's flag is what the
    last [Activate] or [Deactivate] of the run set, if there was one. *)
Theorem plugin_counts_calls s out (cs : list SlotCall) :
  (MyActivity.update_count s + Z.of_nat (tally is_update cs) <= usize_max)%Z ->
  (MyActivity.render_count s + Z.of_nat (tally is_render cs) <= usize_max)%Z ->
  exists s' out',
    plugin_run cs (Some (s, out)) = Some (s', out ++ out') /\
    MyActivity.name s' = MyActivity.name s /\
    MyActivity.update_count s'
      = (MyActivity.update_count s + Z.of_nat (tally is_update cs))%Z /\
    MyActivity.render_count s'
      = (MyActivity.render_count s + Z.of_nat (tally is_render cs))%Z /\
    MyActivity.active s' = flag_after cs (MyActivity.active s) /\
    length out'
      = tally is_update cs + tally is_render cs + tally is_runui cs.
Proof.
  revert s out. induction cs as [|c cs IH]; intros s out.
  - intros _ _. exists s, []. rewrite app_nil_r, !Z.add_0_r. by split_and!.
  - rewrite plugin_run_cons, plugin_run_one, !tally_cons, flag_after_cons.
    intros Hu Hr.
    destruct c as [| | |vi|vi]; simpl in Hu, Hr; simpl.
    + destruct (IH (MyActivity.Activate s) out Hu Hr)
        as (s' & out' & Hrun & Hn & Hc & Hd & Ha & Hl).
      exists s', out'. by split_and!.
    + destruct (IH (MyActivity.Deactivate s) out Hu Hr)
        as (s' & out' & Hrun & Hn & Hc & Hd & Ha & Hl).
      exists s', out'. by split_and!.
    + unfold MyActivity.Update.
      destruct (Z.ltb_spec (MyActivity.update_count s) usize_max)
        as [_|Hge]; [|lia]. simpl.
      edestruct (IH (MyActivity.mk (MyActivity.name s) (MyActivity.active s)
                       (MyActivity.update_count s + 1)
                       (MyActivity.render_count s)))
        as (s' & out' & Hrun & Hn & Hc & Hd & Ha & Hl);
        [simpl; lia|simpl; lia|].
      eexists s', (_ :: out'). rewrite Hrun, <-app_assoc. simpl in *.
      split_and!; [done|done|lia|done|done|by rewrite Hl].
    + unfold MyActivity.Render.
      destruct (Z.ltb_spec (MyActivity.render_count s) usize_max)
        as [_|Hge]; [|lia]. simpl.
      edestruct (IH (MyActivity.mk (MyActivity.name s) (MyActivity.active s)
                       (MyActivity.update_count s)
                       (MyActivity.render_count s + 1)))
        as (s' & out' & Hrun & Hn & Hc & Hd & Ha & Hl);
        [simpl; lia|simpl; lia|].
      eexists s', (_ :: out'). rewrite Hrun, <-app_assoc. simpl in *.
      split_and!; [done|done|done|lia|done|rewrite Hl; lia].
    + edestruct (IH s) as (s' & out' & Hrun & Hn & Hc & Hd & Ha & Hl);
        [exact Hu|exact Hr|].
      eexists s', (_ :: out'). rewrite Hrun, <-app_assoc. simpl in *.
      split_and!; [done|done|done|done|done|rewrite Hl; lia].
Qed.

(** X13. [add] is the sum exactly when the sum is an [i32] and has no
    result otherwise. It does not depend on the order of its arguments, zero
    changes nothing, arguments of opposite sign never overflow, and two
    additions that both succeed can be regrouped. *)
Theorem add_is_checked_sum :
  (forall a b c, add a b = Some c <-> c = (a + b)%Z /\ is_i32 (a + b) = true) /\
  (forall a b, add a b = add b a) /\
  (forall a, is_i32 a = true -> add a 0 = Some a /\ add 0 a = Some a) /\
  (forall a b, is_i32 a = true -> is_i32 b = true ->
               (0 <= a)%Z -> (b <= 0)%Z -> add a b = Some (a + b)%Z) /\
  (forall a b c x y, add a b = Some x -> add b c = Some y ->
                     add x c = add a y) /\
  add 3 7 = Some 10%Z.
Proof.
  assert (forall a, is_i32 a = true <-> (- 2 ^ 31 <= a < 2 ^ 31)%Z) as Hi.
  { intros a. unfold is_i32. rewrite andb_true_iff, Z.leb_le, Z.ltb_lt. tauto. }
  assert (forall a b c, add a b = Some c <->
                        c = (a + b)%Z /\ is_i32 (a + b) = true) as Hadd.
  { intros a b c. unfold add. destruct (is_i32 (a + b)); split.
    - by intros [= <-].
    - by intros [-> _].
    - done.
    - by intros [_ ?]. }
  split_and!.
  - exact Hadd.
  - intros a b. unfold add. by rewrite (Z.add_comm a b).
  - intros a Ha. unfold add. rewrite Z.add_0_r, Z.add_0_l, Ha. by split.
  - intros a b Ha Hb H0 H1. apply Hadd. split; [done|].
    apply Hi. apply Hi in Ha, Hb. lia.
  - intros a b c x y [-> _]%Hadd [-> _]%Hadd. unfold add.
    by rewrite Z.add_assoc.
  - done.
Qed.

End PluginTemplate.

Section SilentSlots.
Context {Self World : Type}.

(** An activity whose bid slot is null is never chosen by the arbitration,
    whatever the other activities bid. *)
Lemma null_slot_never_wins
    (slot : LabActivity Self -> option (Self -> View.LabViewInteraction -> Z))
    (vi : View.LabViewInteraction) (m : ModeManager Self World) n a :
  activities m !! n = Some a ->
  slot (Activity.activity (Activity.this a)) = None ->
  arbitrate (bids slot vi m) ≠ Some n.
Proof.
  intros Ha Hnull Hwin.
  apply arbitrate_Some in Hwin as (l1 & b & l2 & Heq & Hb & _).
  assert ((n, b) ∈ bids slot vi m) as Hin.
  { rewrite Heq. apply elem_of_app. right. by left. }
  apply elem_of_bids in Hin as (_ & a' & Ha' & _ & ->).
  rewrite Ha in Ha'. injection Ha' as <-. rewrite Hnull in Hb.
  simpl in Hb. lia.
Qed.

End SilentSlots.

(** X14. [make_activity] fills in neither [ViewportHoverBid] nor
    [ViewportDragBid] (nor the two handlers, nor [Menu], nor [ToolBar]),
    although the plugin defines all of them. A live activity that carries
    this table, with the host's flag either way, therefore never wins the
    hover or the drag arbitration, whatever the other activities bid. *)
Theorem plugin_never_wins {World : Type} (m : ModeManager Plugin World)
    (vi : View.LabViewInteraction) (n : string) (a : Activity.t Plugin)
    (b : bool) :
  activities m !! n = Some a ->
  Activity.activity (Activity.this a) = with_active b make_activity ->
  arbitrate (bids ViewportHoverBid vi m) ≠ Some n /\
  arbitrate (bids ViewportDragBid vi m) ≠ Some n /\
  ViewportHovering (Activity.activity (Activity.this a)) = None /\
  ViewportDragging (Activity.activity (Activity.this a)) = None /\
  Menu (Activity.activity (Activity.this a)) = None /\
  ToolBar (Activity.activity (Activity.this a)) = None.
Proof.
  intros Ha Htab. split_and!; try (by rewrite Htab).
  - eapply null_slot_never_wins; [exact Ha|]. by rewrite Htab.
  - eapply null_slot_never_wins; [exact Ha|]. by rewrite Htab.
Qed.

(** * The statements at sample inputs *)

(** The selection on the bids 2, 5, 5 and on bids that are all negative. *)
Example arbitrate_2_5_5 :
  arbitrate [("p", 2%Z); ("q", 5%Z); ("r", 5%Z)] = Some "q" /\
  arbitrate [("p", (-1)%Z); ("q", (-3)%Z)] = None /\
  calls (RunViewportHovering (interaction false false) (stage 2 5 5))
    = [CallViewportHovering "q"] /\
  calls (RunViewportHovering (interaction false false) (stage (-1) (-2) (-1)))
    = [].
Proof. by vm_compute. Qed.

(** Calls on an entity that is already active still run the hook: three
    calls, three runs. *)
Example counting_twice :
  Activity.IsActive (Activity.Activate (counting_activity "c")) = true /\
  Activity.fields
    (Activity.this
       (Activity.Activate (Activity.Activate (Activity.Activate
          (counting_activity "c"))))) = 3.
Proof. by vm_compute. Qed.

(** [rewound] is what two appends to a fresh journal and a move back to
    the root produce. *)
Example rewound_built :
  (fun wj : nat * Journal nat => goto root wj.2)
    <$> Appends [Transaction_of "first" S; Transaction_of "second" S]
                (0, Journal_new 0)
  = Some rewound.
Proof. by vm_compute. Qed.

(** [branched] is what two appends, a fork and a move back to the root
    produce. *)
Example branched_built :
  (wj ← Appends [Transaction_of "first" S; Transaction_of "second" S]
                (0, Journal_new 0);
   wj' ← Fork (Transaction_of "third" S) wj;
   Some (wj'.1, goto root wj'.2))
  = Some (3, branched).
Proof. by vm_compute. Qed.




(** Forking twice from the root of a fresh journal. *)
Lemma Fork_keeps_siblings_witness :
  chain sibling (@Journal_new nat 0) (Some (_curr (@Journal_new nat 0))) ([] ++ [root]) /\
  exists j1 j2,
    Fork (Transaction_of "left" S) (0, Journal_new 0) = Some (1, j1) /\
    Fork (Transaction_of "right" S) (1, goto root j1) = Some (2, j2) /\
    chain sibling j2 (Some root) [root; _curr j1; _curr j2].
Proof.
  assert (chain sibling (@Journal_new nat 0) (Some (_curr (@Journal_new nat 0)))
            ([] ++ [root])) as Hch.
  { econstructor; [reflexivity|]. constructor. }
  split; [exact Hch|].
  destruct (proj2 (@Fork_keeps_siblings nat) (Transaction_of "left" S)
              (Transaction_of "right" S) 0 (Journal_new 0) [] root _ Hch eq_refl)
    as (j1 & j2 & H1 & _ & H2 & Hc & _).
  exists j1, j2. split; [exact H1|]. split; [exact H2|exact Hc].
Defined.

(** A hook that writes the flag: after [Activate()] the contrary activity
    is not active and after [Deactivate()] it is; the same for the contrary
    mode. *)
Lemma hook_overrides_flag :
  Activity.IsActive (Activity.Activate (contrary_activity "x")) = false /\
  Activity.IsActive (Activity.Deactivate (contrary_activity "x")) = true /\
  Mode.IsActive (Mode.Activate (contrary_mode "x")) = false /\
  Mode.IsActive (Mode.Deactivate (contrary_mode "x")) = true.
Proof. by vm_compute. Qed.

Lemma flag_set_before_hook_witness :
  (forall s : Activity.state nat,
      active (Activity.activity (Activity._activate (plain_activity "x") s))
      = active (Activity.activity s)) /\
  Activity.IsActive (Activity.Activate (plain_activity "x")) = true.
Proof.
  assert (forall s : Activity.state nat,
             active (Activity.activity
                       (Activity._activate (plain_activity "x") s))
             = active (Activity.activity s)) as Hk by (intros s; reflexivity).
  split; [exact Hk|].
  exact (proj1 (proj2 (@flag_set_before_hook nat)) (plain_activity "x") Hk).
Defined.

(** The gesture started on [first_frame] stays with "r" on [later_frame]. *)
Lemma drag_owner_keeps_gesture_witness :
  View.start (frame_vi first_frame) = true /\
  View.end_ (frame_vi first_frame) = false /\
  Forall (fun f : Frame nat => View.start (frame_vi f) = false /\
                               View.end_ (frame_vi f) = false) [later_frame] /\
  calls (drag_frames [first_frame; later_frame] (stage 0 0 0))
    = [CallViewportDragging "r"; CallViewportDragging "r"] /\
  arbitrate (bids ViewportDragBid (frame_vi later_frame)
               (rebid (frame_bids later_frame) (stage 0 0 0))) = Some "p".
Proof.
  assert (Forall (fun f : Frame nat => View.start (frame_vi f) = false /\
                                       View.end_ (frame_vi f) = false)
                 [later_frame]) as Hmid.
  { constructor; [split; reflexivity|constructor]. }
  split; [reflexivity|]. split; [reflexivity|]. split; [exact Hmid|].
  split; [|by vm_compute].
  destruct (proj1 (@drag_owner_keeps_gesture nat nat) (stage 0 0 0)
              first_frame [later_frame] eq_refl eq_refl Hmid) as [Hc _].
  rewrite Hc. by vm_compute.
Defined.


Lemma fresh_journal_chain :
  chain next (_journal studio) (Some (_curr (_journal studio))) [root].
Proof. econstructor; [reflexivity|]. constructor. Defined.



Lemma queued_studio_chain (t : Transaction nat) :
  chain next (_journal (EnqueueTransaction t studio))
        (Some (_curr (_journal (EnqueueTransaction t studio)))) [root].
Proof. econstructor; [reflexivity|]. constructor. Defined.

(** With one transaction queued, requesting "edit" changes nothing but the
    slot; the tick runs the transaction and then switches. *)
Lemma major_mode_switch_is_deferred_witness :
  FindMode "edit" (EnqueueTransaction (Transaction_of "paint" S) studio)
    = Some edit_mode /\
  CurrentMajorMode
    (ActivateMajorMode "edit"
       (EnqueueTransaction (Transaction_of "paint" S) studio)) = None /\
  exists m',
    UpdateTransactionQueueActivationAndModes
      (ActivateMajorMode "edit"
         (EnqueueTransaction (Transaction_of "paint" S) studio)) = Some m' /\
    major_mode m' =
      Some ("edit",
            MajorMode.with_base (Mode.Activate (MajorMode.base edit_mode))
                                edit_mode) /\
    world m' = 1 /\ _major_mode_pending m' = "".
Proof.
  split; [reflexivity|]. split; [reflexivity|].
  destruct (proj2 (proj2 (proj2 (@major_mode_switch_is_deferred nat nat)))
              (EnqueueTransaction (Transaction_of "paint" S) studio)
              "edit" edit_mode [root] eq_refl
              (queued_studio_chain (Transaction_of "paint" S)))
    as (j' & m' & _ & HU & Hm' & Hcur & Hpend & _).
  exists m'. split; [exact HU|]. split; [exact Hcur|]. split; [|exact Hpend].
  rewrite Hm'. reflexivity.
Defined.

(** An activity that is already active: "a" is in the active set of
    [studio_a] and no longer after the round trip. And a hook that writes
    the flag: in [contrary_studio] nothing is active before the round trip
    and "a" is active after it. *)
Lemma roundtrip_changes_active_set :
  is_Some (activity_factory studio_a !! "a") /\
  ActiveSet (DeactivateActivity "a" (ActivateActivity "a" studio_a))
    ≠ ActiveSet studio_a /\
  is_Some (activity_factory contrary_studio !! "a") /\
  ActiveSet (DeactivateActivity "a" (ActivateActivity "a" contrary_studio))
    ≠ ActiveSet contrary_studio.
Proof.
  split; [by eexists|]. split; [|split; [by eexists|]].
  - intros Heq.
    assert ("a" ∈ ActiveSet studio_a) as Hin
      by (apply elem_of_ActiveSet; eexists; split; reflexivity).
    rewrite <-Heq in Hin. apply elem_of_ActiveSet in Hin as (a & Ha & Hact).
    vm_compute in Ha. injection Ha as <-. vm_compute in Hact. discriminate.
  - intros Heq.
    assert ("a" ∈ ActiveSet
              (DeactivateActivity "a" (ActivateActivity "a" contrary_studio)))
      as Hin by (apply elem_of_ActiveSet; eexists; split; reflexivity).
    rewrite Heq in Hin. apply elem_of_ActiveSet in Hin as (a & Ha & Hact).
    vm_compute in Ha. discriminate.
Qed.

(** In [studio_b], where "b" is active and "a" is not built yet, the round
    trip on "a" changes nothing in the active set, which is "b" alone, nor
    in the cache of it. *)
Lemma activate_deactivate_roundtrip_witness :
  (FindActivity "a" studio_b).1 = Some (plain_activity "a") /\
  ("a" ∉ ActiveSet studio_b) /\
  active_cache studio_b = ActiveSet studio_b /\
  ("b" ∈ ActiveSet studio_b) /\
  ActiveSet (DeactivateActivity "a" (ActivateActivity "a" studio_b))
    = ActiveSet studio_b /\
  active_cache (DeactivateActivity "a" (ActivateActivity "a" studio_b))
    = active_cache studio_b.
Proof.
  assert ("a" ∉ ActiveSet studio_b) as Hout.
  { intros (a & Ha & _)%elem_of_ActiveSet. vm_compute in Ha. discriminate. }
  assert (active_cache studio_b = ActiveSet studio_b) as Hcache by reflexivity.
  split; [reflexivity|]. split; [exact Hout|]. split; [exact Hcache|].
  split.
  { apply elem_of_ActiveSet. eexists. split; reflexivity. }
  destruct (@activate_deactivate_roundtrip nat nat studio_b "a"
              (plain_activity "a") eq_refl Hout (fun s => eq_refl))
    as (Hset & _ & Hkept).
  split; [exact Hset|exact (Hkept Hcache)].
Defined.

(** Requesting "edit" and then "play" before the tick switches to "play". *)
Lemma last_request_wins_witness :
  Forall (fun x => is_Some (FindMode x studio)) ["edit"] /\
  FindMode "play" studio = Some play_mode /\
  exists m',
    UpdateTransactionQueueActivationAndModes
      (ActivateMajorMode "play" (ActivateMajorMode "edit" studio)) = Some m' /\
    major_mode m' =
      Some ("play",
            MajorMode.with_base (Mode.Activate (MajorMode.base play_mode))
                                play_mode).
Proof.
  assert (Forall (fun x => is_Some (FindMode x studio)) ["edit"]) as Hns.
  { constructor; [by eexists|constructor]. }
  split; [exact Hns|]. split; [reflexivity|].
  destruct (proj2 (proj2 (@last_request_wins nat nat)) studio ["edit"] "play"
              play_mode [root] Hns eq_refl fresh_journal_chain)
    as (m' & HU & _ & Hcur & _).
  exists m'. split; [exact HU|exact Hcur].
Defined.

(** Destroying node 1 of [rewound] takes node 2 with it. *)
Lemma node_count_follows_store_witness :
  chain next rewound (Some 1) [1; 2] /\
  exists j', delete_node 2 1 rewound = Some j' /\
             count rewound = (count j' + 2)%Z /\
             size (nodes rewound) = size (nodes j') + 2.
Proof.
  assert (chain next rewound (Some 1) [1; 2]) as Hch.
  { repeat (econstructor; [reflexivity|]; simpl). constructor. }
  split; [exact Hch|].
  destruct (proj2 (@node_count_follows_store nat) rewound 1 [1; 2] 2 Hch
              (le_n 2)) as (j' & Hd & _ & _ & Hs & Hc & _).
  exists j'. split; [exact Hd|]. split; [exact Hc|exact Hs].
Defined.

Lemma plain_activity_keeps_flag (n : string) :
  Activity.keeps_flag (plain_activity n).
Proof. split; intros s; reflexivity. Defined.

Lemma last_call_decides_witness :
  Activity.keeps_flag (plain_activity "x") /\
  Activity.IsActive
    (Activity_calls ([true; true; false] ++ [true]) (plain_activity "x"))
    = true.
Proof.
  split; [exact (plain_activity_keeps_flag "x")|].
  exact (proj1 (proj2 (@last_call_decides nat)) (plain_activity "x")
           [true; true; false] true (plain_activity_keeps_flag "x")).
Defined.

Lemma active_set_after_call_witness :
  (FindActivity "a" studio).1 = Some (plain_activity "a") /\
  ActiveSet (ActivateActivity "a" studio) = ActiveSet studio ∪ {["a"]}.
Proof.
  split; [reflexivity|].
  exact (proj1 (@active_set_after_call nat nat "a" studio (plain_activity "a")
                  eq_refl) (fun s => eq_refl)).
Defined.

Lemma activity_call_touches_one_name_witness :
  activities studio !! "zz" = None /\
  activity_factory studio !! "zz" = None /\
  ActivateActivity "zz" studio = studio /\
  DeactivateActivity "zz" studio = studio.
Proof.
  split; [reflexivity|]. split; [reflexivity|].
  exact (proj2 (proj2 (proj2
           (@activity_call_touches_one_name nat nat "zz" studio)))
           eq_refl eq_refl).
Defined.

Lemma activity_calls_commute_witness :
  "a" ≠ "b" /\
  ActivateActivity "a" (DeactivateActivity "b" studio)
    = DeactivateActivity "b" (ActivateActivity "a" studio).
Proof.
  assert ("a" ≠ "b") as Hne by discriminate.
  split; [exact Hne|].
  exact (proj2 (proj2 (@activity_calls_commute nat nat "a" "b" studio Hne))).
Defined.

Lemma LockActivity_cases_witness :
  lock None studio = None /\
  (FindActivity "a" studio).1 = Some (plain_activity "a") /\
  is_a (activity_class "a") (plain_activity "a") = true /\
  LockActivity (activity_class "a") None studio
    = (Some (plain_activity "a"), Some "a", (FindActivity "a" studio).2).
Proof.
  split; [reflexivity|]. split; [reflexivity|]. split; [reflexivity|].
  exact (proj1 (proj1 (proj2 (proj2
           (@LockActivity_cases nat nat (activity_class "a") None studio)))
           (plain_activity "a") eq_refl eq_refl eq_refl)).
Defined.

Lemma registered_major_mode_is_found_witness :
  sname (major_mode_class "play") ≠ sname (major_mode_class "edit") /\
  FindMode_as (major_mode_class "play")
    (RegisterMajorMode (major_mode_class "edit") (fun _ => edit_mode)
       (ModeManager_new 0 0))
  = FindMode_as (major_mode_class "play") (ModeManager_new 0 0).
Proof.
  assert (sname (major_mode_class "play") ≠ sname (major_mode_class "edit"))
    as Hne by discriminate.
  split; [exact Hne|].
  destruct (@registered_major_mode_is_found nat nat (major_mode_class "edit")
              (major_mode_class "play") (fun _ => edit_mode)
              (fun _ => edit_mode) (ModeManager_new 0 0))
    as (_ & _ & _ & _ & H & _).
  exact (H Hne).
Defined.

Lemma registered_activity_is_locked_witness :
  activities (ModeManager_new (Self:=nat) 0 0) !! sname (activity_class "a") = None /\
  is_a (activity_class "a") (plain_activity "a") = true /\
  (LockActivity (activity_class "a") None
     (RegisterActivity (activity_class "a") (fun _ => plain_activity "a")
        (ModeManager_new 0 0))).1
  = (Some (plain_activity "a"), Some "a").
Proof.
  split; [reflexivity|]. split; [reflexivity|].
  rewrite (proj1 (proj2 (@registered_activity_is_locked nat nat
             (activity_class "a") (fun _ => plain_activity "a")
             (ModeManager_new 0 0))) eq_refl eq_refl).
  reflexivity.
Defined.

Lemma plugin_update_counts_witness :
  (MyActivity.update_count MyActivity.ma + Z.of_nat 2 <= usize_max)%Z /\
  Nat.iter 2 (as_slot MyActivity.Update) (Some (MyActivity.ma, []))
  = Some (MyActivity.mk "global" false 2 0,
          ["Updated! 1" +:+ nl; "Updated! 2" +:+ nl]).
Proof.
  assert (MyActivity.update_count MyActivity.ma + Z.of_nat 2 <= usize_max)%Z
    as Hle by (by vm_compute).
  split; [exact Hle|].
  rewrite (proj1 (proj2 plugin_update_counts) MyActivity.ma [] 2 Hle).
  by vm_compute.
Defined.

Lemma add_is_checked_sum_witness :
  is_i32 2147483647 = true /\ is_i32 (-2147483648) = true /\
  add 2147483647 (-2147483648) = Some (-1)%Z /\
  add 2147483647 1 = None.
Proof.
  split; [reflexivity|]. split; [reflexivity|]. split; [|reflexivity].
  exact (proj1 (proj2 (proj2 (proj2 add_is_checked_sum))) 2147483647%Z
           (-2147483648)%Z eq_refl eq_refl
           (proj1 (Z.leb_le 0 2147483647) eq_refl)
           (proj1 (Z.leb_le (-2147483648) 0) eq_refl)).
Defined.

Lemma plugin_never_wins_witness :
  activities plugin_host !! "global" = Some plugin_activity /\
  Activity.activity (Activity.this plugin_activity)
    = with_active true make_activity /\
  arbitrate (bids ViewportHoverBid (interaction false false) plugin_host)
    ≠ Some "global".
Proof.
  split; [reflexivity|]. split; [reflexivity|].
  exact (proj1 (@plugin_never_wins nat plugin_host (interaction false false)
                  "global" plugin_activity true eq_refl eq_refl)).
Defined.

Lemma plugin_counts_calls_witness :
  (MyActivity.update_count MyActivity.ma
     + Z.of_nat (tally is_update
                   [DoUpdate; DoRender (interaction false false); DoActivate;
                    DoUpdate; DoRunUI (interaction false false)])
   <= usize_max)%Z /\
  plugin_run [DoUpdate; DoRender (interaction false false); DoActivate;
              DoUpdate; DoRunUI (interaction false false)]
             (Some (MyActivity.ma, []))
  = Some (MyActivity.mk "global" true 2 1,
          ["Updated! 1" +:+ nl; "Rendered! 1" +:+ nl; "Updated! 2" +:+ nl;
           "runui!" +:+ nl]).
Proof.
  assert (MyActivity.update_count MyActivity.ma
     + Z.of_nat (tally is_update
                   [DoUpdate; DoRender (interaction false false); DoActivate;
                    DoUpdate; DoRunUI (interaction false false)])
   <= usize_max)%Z as Hu by (by vm_compute).
  assert (MyActivity.render_count MyActivity.ma
     + Z.of_nat (tally is_render
                   [DoUpdate; DoRender (interaction false false); DoActivate;
                    DoUpdate; DoRunUI (interaction false false)])
   <= usize_max)%Z as Hr by (by vm_compute).
  split; [exact Hu|].
  destruct (plugin_counts_calls [] Hu Hr)
    as (s' & out' & Hrun & _).
  rewrite Hrun. revert Hrun. vm_compute. by intros [= <- <-].
Defined.
